(** * Off-topic channel names

    A shallow embedding of [bot/exts/fun/off_topic_names.py]: the daily task
    that renames the three off-topic channels and the moderator commands
    [otname add|forceadd|delete|list|search].

    The cog is glue code around three outside parties: the site API
    ([bot.api_client]), the chat platform ([ctx.send], [channel.edit],
    [LinePaginator.paginate]) and the logger.  The model threads a [world]
    through every coroutine: what the site answers, what the chat platform
    answers, the cached channels, and a journal of the calls made. *)

From Stdlib Require Import ZArith List Ascii String DecimalFacts DecimalNat DecimalString
  PrimFloat Uint63.
From stdpp Require Import gmap sets list sorting strings.

Set Warnings "-inexact-float".

(** ** Python values used by the cog *)

Module Py.

(** A Python [str] is a sequence of Unicode code points. *)
Definition char : Type := N.
Definition str : Type := list char.

(** An ASCII literal of the source, as code points. *)
Definition lit (s : string) : str :=
  map N_of_ascii (String.list_ascii_of_string s).

(** [str(n)] for a non-negative [int] such as [len(result)]. *)
Definition str_of_nat (n : nat) : str :=
  lit (NilZero.string_of_uint (Nat.to_uint n)).

(** [str(z)] for an [int]. *)
Definition str_of_int (z : Z) : str :=
  lit (NilZero.string_of_int (Z.to_int z)).

(** [s.startswith(p)]. *)
Fixpoint startswith (p s : str) : bool :=
  match p, s with
  | [], _ => true
  | _ :: _, [] => false
  | a :: p', b :: s' => if (a =? b)%N then startswith p' s' else false
  end.

(** [q in s]: [q] occurs in [s] as a contiguous run of code points. *)
Fixpoint contains (q s : str) : bool :=
  if startswith q s then true
  else match s with
       | [] => false
       | _ :: s' => contains q s'
       end.

(** [a <= b] on [str]: lexicographic by code point. *)
Fixpoint str_leb (a b : str) : bool :=
  match a, b with
  | [], _ => true
  | _ :: _, [] => false
  | x :: a', y :: b' =>
      if (x <? y)%N then true
      else if (x =? y)%N then str_leb a' b'
      else false
  end.

Definition str_le (a b : str) : Prop := str_leb a b = true.

#[global] Instance str_le_dec : RelDecision str_le :=
  fun a b => bool_eq_dec (str_leb a b) true.

(** [sorted(xs)] on strings.  CPython sorts with a stable merge sort; for
    the total order [str_le], whose equivalent elements are equal, every
    sorting algorithm returns the same list ([sorted_unique] below). *)
Definition sorted (xs : list str) : list str := merge_sort str_le xs.

(** A [dict] with [str] keys.  Python dicts keep insertion order, and
    assigning to a key that is present replaces the value in place. *)
Definition dict (V : Type) : Type := list (str * V).

Fixpoint dict_set {V} (k : str) (v : V) (d : dict V) : dict V :=
  match d with
  | [] => [(k, v)]
  | (k', v') :: d' =>
      if decide (k' = k) then (k', v) :: d' else (k', v') :: dict_set k v d'
  end.

Fixpoint dict_get {V} (k : str) (d : dict V) : option V :=
  match d with
  | [] => None
  | (k', v') :: d' => if decide (k' = k) then Some v' else dict_get k d'
  end.

Definition dict_keys {V} (d : dict V) : list str := map fst d.

(** [{key(x): x for x in xs}]. *)
Definition dict_comprehension {V} (key : V -> str) (xs : list V) : dict V :=
  fold_left (fun d x => dict_set (key x) x d) xs [].

End Py.
Import Py.

Arguments lit : simpl never.
Arguments str_of_nat : simpl never.
Arguments str_of_int : simpl never.

(** ** Exceptions, effects and the world *)

Inductive exn : Type :=
| ResponseCodeError (status : Z)   (* botcore.site_api: the site answered with an error status *)
| ClientError                      (* the request did not reach the site *)
| HTTPException (status : Z)       (* discord: the chat platform refused an action *)
| ValueError
| KeyError (key : str)
| AttributeError.

(** The exception classes a task loop can be told to retry on. *)
Inductive exn_class : Type :=
| ResponseCodeErrorT | ClientErrorT | HTTPExceptionT
| ValueErrorT | KeyErrorT | AttributeErrorT.

#[global] Instance exn_class_eq_dec : EqDecision exn_class.
Proof. solve_decision. Defined.

Definition class_of (e : exn) : exn_class :=
  match e with
  | ResponseCodeError _ => ResponseCodeErrorT
  | ClientError => ClientErrorT
  | HTTPException _ => HTTPExceptionT
  | ValueError => ValueErrorT
  | KeyError _ => KeyErrorT
  | AttributeError => AttributeErrorT
  end.

Inductive outcome (A : Type) : Type :=
| Returned (a : A)
| Raised (e : exn).
Arguments Returned {A} a.
Arguments Raised {A} e.

(** Query parameters of a request ([params={'random_items': 3}]). *)
Inductive param : Type :=
| PInt (z : Z)
| PStr (s : str).

Inductive request : Type :=
| GET (endpoint : str) (params : list (str * param))
| POST (endpoint : str) (params : list (str * param))
| DELETE (endpoint : str).

Inductive Colour : Type := blue.

Record Embed : Type := mkEmbed {
  title : str;
  colour : Colour;
  description : option str
}.

Inductive level : Type := DEBUG | INFO | ERROR.

(** The calls a coroutine of the cog makes to the outside. *)
Inductive event : Type :=
| ApiCall (r : request)                         (* bot.api_client.get/post/delete *)
| CtxSend (content : str)                       (* ctx.send(content) *)
| CtxSendEmbed (e : Embed)                      (* ctx.send(embed=e) *)
| CtxSendHelp                                   (* ctx.send_help(ctx.command) *)
| Paginate (lines : list str) (e : Embed) (max_size : Z) (empty : bool)
| ChannelEdit (channel_id : Z) (name : str)     (* channel.edit(name=name) *)
| LogRecord (lv : level) (msg : str).

Record world : Type := mkWorld {
  site : request -> outcome (list str);   (* what a request to the site returns (a list of names) or raises *)
  gateway : event -> option exn;          (* the exception the chat platform answers a call with *)
  channels : gmap Z str;                  (* cached channels: id to current name *)
  journal : list event                    (* calls made so far, oldest first *)
}.

(** The world after further calls. *)
Definition emit (evs : list event) (w : world) : world :=
  {| site := site w; gateway := gateway w; channels := channels w;
     journal := journal w ++ evs |}.

Definition record_event (ev : event) (w : world) : world := emit [ev] w.

Definition rename_channel (id : Z) (name : str) (w : world) : world :=
  {| site := site w; gateway := gateway w;
     channels := <[id := name]> (channels w);
     journal := journal w |}.

(** Coroutines: state passing over [world], with exceptions. *)
Definition M (A : Type) : Type := world -> outcome A * world.

Definition ret {A} (a : A) : M A := fun w => (Returned a, w).

Definition bind {A B} (m : M A) (k : A -> M B) : M B :=
  fun w => match m w with
           | (Returned a, w') => k a w'
           | (Raised e, w') => (Raised e, w')
           end.

Definition raise {A} (e : exn) : M A := fun w => (Raised e, w).

(** [try: body  except ...: handler(e)]; a handler that does not match the
    exception re-raises it. *)
Definition try_except {A} (body : M A) (handler : exn -> M A) : M A :=
  fun w => match body w with
           | (Returned a, w') => (Returned a, w')
           | (Raised e, w') => handler e w'
           end.

Declare Scope coroutine_scope.
Delimit Scope coroutine_scope with co.
Notation "x <- m ;; k" := (bind m (fun x => k))
  (at level 100, m at next level, k at level 200, right associativity) : coroutine_scope.
Notation "m ;; k" := (bind m (fun _ => k))
  (at level 100, k at level 200, right associativity) : coroutine_scope.
Open Scope coroutine_scope.

(** A library call that returns or raises, inside a coroutine. *)
Definition lift {A} (o : outcome A) : M A := fun w => (o, w).

Fixpoint traverse {A B} (f : A -> M B) (xs : list A) : M (list B) :=
  match xs with
  | [] => ret []
  | x :: xs' => y <- f x ;; ys <- traverse f xs' ;; ret (y :: ys)
  end.

(** [await self.bot.api_client.get/post/delete(...)]: the request goes out;
    the site's answer is returned, or its error raised. *)
Definition api_client (r : request) : M (list str) :=
  fun w => (site w r, record_event (ApiCall r) w).

(** A call to the chat platform: it is made, and returns or raises. *)
Definition perform (ev : event) : M unit :=
  fun w => (match gateway w ev with
            | Some e => Raised e
            | None => Returned tt
            end, record_event ev w).

Definition send (content : str) : M unit := perform (CtxSend content).
Definition send_embed (e : Embed) : M unit := perform (CtxSendEmbed e).
Definition send_help : M unit := perform CtxSendHelp.
Definition paginate (lines : list str) (e : Embed) (max_size : Z) (empty : bool)
  : M unit := perform (Paginate lines e max_size empty).

Definition log (lv : level) (msg : str) : M unit :=
  fun w => (Returned tt, record_event (LogRecord lv msg) w).

(** [self.bot.get_channel(channel_id)]: the cached channel, or [None]. *)
Definition get_channel (channel_id : Z) : M (option Z) :=
  fun w => (Returned (match channels w !! channel_id with
                      | Some _ => Some channel_id
                      | None => None
                      end), w).

(** [await channel.edit(name=name)]; [None] has no [edit]. *)
Definition edit (channel : option Z) (name : str) : M unit :=
  match channel with
  | None => raise AttributeError
  | Some channel_id =>
      fun w => match gateway w (ChannelEdit channel_id name) with
               | Some e => (Raised e, record_event (ChannelEdit channel_id name) w)
               | None => (Returned tt,
                          rename_channel channel_id name
                            (record_event (ChannelEdit channel_id name) w))
               end
  end.

(** [await self.bot.wait_until_guild_available()] only waits. *)
Definition wait_until_guild_available : M unit := ret tt.

(** [a, b, c = xs] *)
Definition unpack3 {A} (xs : list A) : M (A * A * A) :=
  match xs with
  | [a; b; c] => ret (a, b, c)
  | _ => raise ValueError
  end.

(** The part of [discord.ext.tasks.Loop] the cog touches: the exception
    types it handles, whether it reconnects, whether its task is running
    ([is_running()]), and the flag [_stop_next_iteration]. *)
Record Loop : Type := mkLoop {
  valid_exception : list exn_class;
  reconnect : bool;
  running : bool;
  _stop_next_iteration : bool
}.

Definition add_exception_type (c : exn_class) (l : Loop) : Loop :=
  mkLoop (valid_exception l ++ [c]) (reconnect l) (running l) (_stop_next_iteration l).
Definition clear_exception_types (l : Loop) : Loop :=
  mkLoop [] (reconnect l) (running l) (_stop_next_iteration l).
Definition start (l : Loop) : Loop :=
  mkLoop (valid_exception l) (reconnect l) true (_stop_next_iteration l).
(** [stop()] does not end a running task: it asks the loop to exit once the
    iteration under way is over.  On a loop that is not running it does
    nothing. *)
Definition stop (l : Loop) : Loop :=
  if running l
  then mkLoop (valid_exception l) (reconnect l) (running l) true
  else l.

(** The loop sleeps with exponential back-off and runs the task again when
    the task raises an exception of one of its handled types. *)
Definition retries (l : Loop) (e : exn) : bool :=
  reconnect l && bool_decide (class_of e ∈ valid_exception l).

Record Context : Type := mkContext { author : str }.

(** [f"• {name}"] *)
Definition bullet (name : str) : str := [8226%N; 32%N] ++ name.

(** ** The standard library's [difflib]

    [difflib] is not part of the repository: the cog calls
    [difflib.get_close_matches] as a library function, and below it is a
    parameter of the cog.  This module follows CPython's [Lib/difflib.py]
    ([SequenceMatcher] with [isjunk=None] and [autojunk=True], which is how
    [get_close_matches] builds it), so that the cog can be run on concrete
    names.  Ratios are binary64 floats, as in Python. *)

Module difflib.

(** [s[i]] for an index in range. *)
Definition item (s : str) (i : Z) : option char :=
  if (i <? 0)%Z then None else s !! Z.to_nat i.

Fixpoint indices_from (j : Z) (elt : char) (s : str) : list Z :=
  match s with
  | [] => []
  | c :: s' =>
      if (c =? elt)%N then j :: indices_from (j + 1) elt s'
      else indices_from (j + 1) elt s'
  end.

(** [_calculate_ratio(matches, length)] *)
Definition _calculate_ratio (matches length : Z) : float :=
  if (length =? 0)%Z then 1.0%float
  else (2.0 * of_uint63 (Uint63.of_Z matches) / of_uint63 (Uint63.of_Z length))%float.

Definition triple_leb (x y : Z * Z * Z) : bool :=
  let '(i1, j1, k1) := x in
  let '(i2, j2, k2) := y in
  if (i1 =? i2)%Z then
    if (j1 =? j2)%Z then (k1 <=? k2)%Z else (j1 <? j2)%Z
  else (i1 <? i2)%Z.

Definition triple_le (x y : Z * Z * Z) : Prop := triple_leb x y = true.

#[global] Instance triple_le_dec : RelDecision triple_le :=
  fun x y => bool_eq_dec (triple_leb x y) true.

Section SequenceMatcher.

(** [self.a] (set by [set_seq1]) and [self.b] (set by [set_seq2]). *)
Variables a b : str.

(** [__chain_b]: [b2j] maps an element of [b] to the indices where it
    occurs; with 200 elements or more, the popular ones are dropped.
    No element is junk. *)
Definition popular (elt : char) : bool :=
  let n := Z.of_nat (length b) in
  (200 <=? n)%Z && (n / 100 + 1 <? Z.of_nat (length (indices_from 0 elt b)))%Z.

Definition b2j (elt : char) : list Z :=
  if popular elt then [] else indices_from 0 elt b.

Definition isbjunk (elt : char) : bool := false.

(** The inner loop of [find_longest_match]: [for j in b2j.get(a[i], nothing)]. *)
Fixpoint scan_row (i blo bhi : Z) (j2len : gmap Z Z) (js : list Z)
    (newj2len : gmap Z Z) (best : Z * Z * Z) : gmap Z Z * (Z * Z * Z) :=
  match js with
  | [] => (newj2len, best)
  | j :: js' =>
      if (j <? blo)%Z then scan_row i blo bhi j2len js' newj2len best
      else if (bhi <=? j)%Z then (newj2len, best)
      else
        let k := (default 0 (j2len !! (j - 1)) + 1)%Z in
        let '(_, _, bestsize) := best in
        scan_row i blo bhi j2len js' (<[j := k]> newj2len)
          (if (bestsize <? k)%Z then (i - k + 1, j - k + 1, k)%Z else best)
  end.

(** [while besti > alo and bestj > blo and p(b[bestj-1]) and
    a[besti-1] == b[bestj-1]]; the loop runs at most [besti - alo] times. *)
Fixpoint extend_back (p : char -> bool) (alo blo : Z) (fuel : nat)
    (m : Z * Z * Z) : Z * Z * Z :=
  match fuel with
  | O => m
  | S fuel' =>
      let '(besti, bestj, bestsize) := m in
      match item a (besti - 1), item b (bestj - 1) with
      | Some x, Some y =>
          if (alo <? besti)%Z && (blo <? bestj)%Z && p y && (x =? y)%N
          then extend_back p alo blo fuel' (besti - 1, bestj - 1, bestsize + 1)%Z
          else m
      | _, _ => m
      end
  end.

(** [while besti+bestsize < ahi and bestj+bestsize < bhi and
    p(b[bestj+bestsize]) and a[besti+bestsize] == b[bestj+bestsize]] *)
Fixpoint extend_forward (p : char -> bool) (ahi bhi : Z) (fuel : nat)
    (m : Z * Z * Z) : Z * Z * Z :=
  match fuel with
  | O => m
  | S fuel' =>
      let '(besti, bestj, bestsize) := m in
      match item a (besti + bestsize), item b (bestj + bestsize) with
      | Some x, Some y =>
          if (besti + bestsize <? ahi)%Z && (bestj + bestsize <? bhi)%Z
             && p y && (x =? y)%N
          then extend_forward p ahi bhi fuel' (besti, bestj, bestsize + 1)%Z
          else m
      | _, _ => m
      end
  end.

Definition find_longest_match (alo ahi blo bhi : Z) : Z * Z * Z :=
  let m :=
    snd (fold_left
           (fun (st : gmap Z Z * (Z * Z * Z)) (i : Z) =>
              scan_row i blo bhi (fst st)
                (match item a i with Some x => b2j x | None => [] end)
                ∅ (snd st))
           (seqZ alo (ahi - alo))
           (∅, (alo, blo, 0%Z))) in
  let room_back (m : Z * Z * Z) := Z.to_nat (fst (fst m) - alo) in
  let room_forward (m : Z * Z * Z) := Z.to_nat (ahi - (fst (fst m) + snd m)) in
  let m := extend_back (fun x => negb (isbjunk x)) alo blo (room_back m) m in
  let m := extend_forward (fun x => negb (isbjunk x)) ahi bhi (room_forward m) m in
  let m := extend_back isbjunk alo blo (room_back m) m in
  extend_forward isbjunk ahi bhi (room_forward m) m.

(** The [while queue:] loop of [get_matching_blocks].  The head of [queue]
    is the end of Python's list, where [queue.pop()] takes from.  Every
    block found uses up an element of [a] and adds at most two regions, so
    [2 * len(a) + 1] rounds empty the queue. *)
Fixpoint matching_loop (fuel : nat) (queue : list (Z * Z * Z * Z))
    (matching_blocks : list (Z * Z * Z)) : list (Z * Z * Z) :=
  match fuel, queue with
  | S fuel', (alo, ahi, blo, bhi) :: queue' =>
      let '(i, j, k) := find_longest_match alo ahi blo bhi in
      if (k =? 0)%Z then matching_loop fuel' queue' matching_blocks
      else
        let queue1 :=
          if (alo <? i)%Z && (blo <? j)%Z then (alo, i, blo, j) :: queue'
          else queue' in
        let queue2 :=
          if (i + k <? ahi)%Z && (j + k <? bhi)%Z
          then ((i + k)%Z, ahi, (j + k)%Z, bhi) :: queue1
          else queue1 in
        matching_loop fuel' queue2 (matching_blocks ++ [(i, j, k)])
  | _, _ => matching_blocks
  end.

(** The loop that merges adjacent blocks. *)
Fixpoint collapse (blocks : list (Z * Z * Z)) (cur : Z * Z * Z)
    (non_adjacent : list (Z * Z * Z)) : list (Z * Z * Z) :=
  let '(i1, j1, k1) := cur in
  match blocks with
  | [] => if (k1 =? 0)%Z then non_adjacent else non_adjacent ++ [cur]
  | (i2, j2, k2) :: blocks' =>
      if (i1 + k1 =? i2)%Z && (j1 + k1 =? j2)%Z
      then collapse blocks' (i1, j1, (k1 + k2)%Z) non_adjacent
      else collapse blocks' (i2, j2, k2)
             (if (k1 =? 0)%Z then non_adjacent else non_adjacent ++ [cur])
  end.

Definition get_matching_blocks : list (Z * Z * Z) :=
  let la := Z.of_nat (length a) in
  let lb := Z.of_nat (length b) in
  let matching_blocks :=
    matching_loop (S (2 * length a)) [(0%Z, la, 0%Z, lb)] [] in
  collapse (merge_sort triple_le matching_blocks) (0, 0, 0)%Z [] ++ [(la, lb, 0%Z)].

Definition ratio : float :=
  let matches := foldr Z.add 0%Z (map snd get_matching_blocks) in
  _calculate_ratio matches (Z.of_nat (length a + length b)).

(** [quick_ratio]: the size of the multiset intersection of [a] and [b]. *)
Fixpoint quick_loop (s : str) (avail : gmap N Z) (matches : Z) : Z :=
  match s with
  | [] => matches
  | elt :: s' =>
      let numb :=
        match avail !! elt with
        | Some n => n
        | None => Z.of_nat (length (indices_from 0 elt b))
        end in
      quick_loop s' (<[elt := (numb - 1)%Z]> avail)
        (if (0 <? numb)%Z then (matches + 1)%Z else matches)
  end.

Definition quick_ratio : float :=
  _calculate_ratio (quick_loop a ∅ 0%Z) (Z.of_nat (length a + length b)).

Definition real_quick_ratio : float :=
  let la := Z.of_nat (length a) in
  let lb := Z.of_nat (length b) in
  _calculate_ratio (Z.min la lb) (la + lb).

End SequenceMatcher.

(** [(score, x)] tuples compare by score, then by string. *)
Definition scored_leb (x y : float * str) : bool :=
  if PrimFloat.eqb (fst x) (fst y) then str_leb (snd x) (snd y)
  else PrimFloat.ltb (fst x) (fst y).

Definition scored_ge (x y : float * str) : Prop := scored_leb y x = true.

#[global] Instance scored_ge_dec : RelDecision scored_ge :=
  fun x y => bool_eq_dec (scored_leb y x) true.

(** [heapq.nlargest(n, result)]: the [n] largest, largest first. *)
Definition nlargest (n : Z) (result : list (float * str)) : list (float * str) :=
  take (Z.to_nat n) (merge_sort scored_ge result).

(** The body of the [for x in possibilities] loop. *)
Definition score (word : str) (cutoff : float) (x : str) : list (float * str) :=
  if PrimFloat.leb cutoff (real_quick_ratio x word)
     && PrimFloat.leb cutoff (quick_ratio x word)
     && PrimFloat.leb cutoff (ratio x word)
  then [(ratio x word, x)] else [].

Definition get_close_matches (word : str) (possibilities : list str) (n : Z)
    (cutoff : float) : outcome (list str) :=
  if negb (0 <? n)%Z then Raised ValueError
  else if negb (PrimFloat.leb 0.0 cutoff && PrimFloat.leb cutoff 1.0)
  then Raised ValueError
  else
    let result := flat_map (score word cutoff) possibilities in
    Returned (map snd (nlargest n result)).

End difflib.

(** What the loops of [SequenceMatcher] keep true: a match lies inside the
    region searched, the run lengths of a row are bounded by the rows seen,
    and the regions still to search shrink. *)
Definition block_inside (alo ahi : Z) (m : Z * Z * Z) : Prop :=
  (alo <= fst (fst m))%Z /\ (fst (fst m) + snd m <= ahi)%Z /\ (0 <= snd m)%Z.

Definition lengths_below (bound : Z) (j2len : gmap Z Z) : Prop :=
  forall j v, j2len !! j = Some v -> (1 <= v <= bound)%Z.

Definition region_cost (queue : list (Z * Z * Z * Z)) : Z :=
  foldr (fun region cost => (2 * (snd (fst (fst region)) - fst (fst (fst region))) + 1 + cost)%Z)
    0%Z queue.

Definition region_ordered (region : Z * Z * Z * Z) : Prop :=
  (fst (fst (fst region)) <= snd (fst (fst region)))%Z.

(** ** Observing a run *)

(** What a call to the chat platform answers. *)
Definition answer (w : world) (ev : event) : outcome unit :=
  match gateway w ev with
  | Some e => Raised e
  | None => Returned tt
  end.

(** The calls made by running [m] from [w], oldest first. *)
Definition calls {A} (m : M A) (w : world) : list event :=
  drop (length (journal w)) (journal (snd (m w))).

(** The requests to the site among some calls. *)
Definition requests (evs : list event) : list request :=
  omap (fun ev => match ev with ApiCall r => Some r | _ => None end) evs.

(** The channel renames among some calls. *)
Definition edits (evs : list event) : list (Z * str) :=
  omap (fun ev => match ev with ChannelEdit id name => Some (id, name) | _ => None end) evs.

(** The embeds and the paginated lines shown to the user. *)
Definition shown_embeds (evs : list event) : list Embed :=
  omap (fun ev => match ev with
                  | CtxSendEmbed e | Paginate _ e _ _ => Some e
                  | _ => None
                  end) evs.

Definition shown_lines (evs : list event) : list (list str) :=
  omap (fun ev => match ev with Paginate lines _ _ _ => Some lines | _ => None end) evs.

(** An embed with the given description was sent. *)
Definition empty_state_shown (message : str) (evs : list event) : Prop :=
  exists e, CtxSendEmbed e ∈ evs /\ description e = Some message.

(** [xs.count(x)] *)
Definition occurrences (x : str) (xs : list str) : nat :=
  length (List.filter (fun y => bool_decide (y = x)) xs).

(** The elements of [xs] without repetition, each at its first occurrence. *)
Definition first_occurrences (xs : list str) : list str :=
  fold_left (fun seen x => if decide (x ∈ seen) then seen else seen ++ [x]) xs [].

(** ** Instances to run the cog on *)

Module Sample.

(** [str.lower] restricted to strings whose cased characters are the ASCII
    letters, which is what it is applied to below: A-Z go to a-z and every
    other code point is left alone.  It is not [str.lower] on other cased
    characters; the theorems on the cog take [lower] as a parameter. *)
Definition lower (s : str) : str :=
  map (fun c => if (65 <=? c)%N && (c <=? 90)%N then (c + 32)%N else c) s.

(** [s.translate(str.maketrans(x, y))]: a later entry for a character
    replaces an earlier one. *)
Definition translate (x y : str) (s : str) : str :=
  map (fun c => default c (snd <$> last (List.filter (fun e => (fst e =? c)%N) (zip x y)))) s.

(** [bot.converters] is another module of the bot.  These two strings stand
    in for its character tables: ASCII capitals and punctuation that channel
    names cannot hold, and look-alike code points that they can. *)
Definition ALLOWED_CHARACTERS : str := lit "ABCDEFGHIJKLMNOPQRSTUVWXYZ!?'`-<>".
Definition TRANSLATED_CHARACTERS : str :=
  map (fun i => (120224 + N.of_nat i)%N) (seq 0 26)
  ++ [451; 65311; 8217; 8217; 45; 65308; 65310]%N.

Definition translate_name (name : str) (from_unicode : bool) : str :=
  if from_unicode then translate ALLOWED_CHARACTERS TRANSLATED_CHARACTERS name
  else translate TRANSLATED_CHARACTERS ALLOWED_CHARACTERS name.

(** A site that stores [names], hands out the first [random_items] of them
    and accepts every change. *)
Definition site_with (names : list str) (r : request) : outcome (list str) :=
  match r with
  | GET _ [] => Returned names
  | GET _ ((_, PInt k) :: _) => Returned (take (Z.to_nat k) names)
  | GET _ _ => Raised (ResponseCodeError 400)
  | POST _ _ => Returned []
  | DELETE _ => Returned []
  end.

(** A site that is down. *)
Definition site_down (r : request) : outcome (list str) :=
  Raised (ResponseCodeError 503).

Definition ot0 : Z := 291284109232308226.
Definition ot1 : Z := 463035241142026251.
Definition ot2 : Z := 463035268514185226.

Definition world_with (names : list str) : world :=
  {| site := site_with names;
     gateway := fun _ => None;
     channels := {[ ot0 := lit "ot0-old"; ot1 := lit "ot1-old"; ot2 := lit "ot2-old" ]};
     journal := [] |}.

Definition world_down : world :=
  {| site := site_down;
     gateway := fun _ => None;
     channels := {[ ot0 := lit "ot0-old"; ot1 := lit "ot1-old"; ot2 := lit "ot2-old" ]};
     journal := [] |}.

(** A site that cannot be reached. *)
Definition site_unreachable (r : request) : outcome (list str) := Raised ClientError.

Definition world_unreachable : world :=
  {| site := site_unreachable;
     gateway := fun _ => None;
     channels := {[ ot0 := lit "ot0-old"; ot1 := lit "ot1-old"; ot2 := lit "ot2-old" ]};
     journal := [] |}.

(** The second channel is not in the cache. *)
Definition world_without_ot1 (names : list str) : world :=
  {| site := site_with names;
     gateway := fun _ => None;
     channels := {[ ot0 := lit "ot0-old"; ot2 := lit "ot2-old" ]};
     journal := [] |}.

(** The chat platform refuses every edit of the second channel. *)
Definition world_refusing_ot1 (names : list str) : world :=
  {| site := site_with names;
     gateway := fun ev => match ev with
                          | ChannelEdit id _ =>
                              if (id =? ot1)%Z then Some (HTTPException 403) else None
                          | _ => None
                          end;
     channels := {[ ot0 := lit "ot0-old"; ot1 := lit "ot1-old"; ot2 := lit "ot2-old" ]};
     journal := [] |}.

Definition moderator : Context := {| author := lit "mod" |}.

Definition pool : list str :=
  [lit "lizard-wizard"; lit "Lizard-Wizard"; lit "the-void"; lit "gizzard-lizard"].

(** Names of which the first is stored with a look-alike capital (U+1D5B3
    for [T]), as the converter leaves it. *)
Definition pool_translated : list str :=
  [[120243%N] ++ lit "he-void"; lit "the-vid"; lit "into-the-void-again";
   lit "lizard-wizard"].

(** A query typed with a look-alike capital (U+1D5A7 for [H]) and ASCII
    capitals. *)
Definition query_translated : str := [120231%N] ++ lit "E-VOID".

End Sample.

(** ** The cog *)

Section OffTopicNames.

(** [bot.constants]: the three channel ids and the command prefix. *)
Variables off_topic_0 off_topic_1 off_topic_2 : Z.
Variable prefix : str.

(** [bot.converters.OffTopicName.translate_name(name, from_unicode=...)]
    and the built-in [str.lower]. *)
Variable translate_name : str -> bool -> str.
Variable lower : str -> str.

(** [difflib.get_close_matches(word, possibilities, n, cutoff)]. *)
Variable get_close_matches : str -> list str -> Z -> float -> outcome (list str).

Definition CHANNELS : Z * Z * Z := (off_topic_0, off_topic_1, off_topic_2).

Definition names_endpoint : str := lit "bot/off-topic-channel-names".

Definition __init__ (update_names_loop : Loop) : Loop :=
  start (add_exception_type ResponseCodeErrorT update_names_loop).

Definition cog_unload (update_names_loop : Loop) : Loop :=
  stop (clear_exception_types update_names_loop).

Definition update_names : M unit :=
  wait_until_guild_available ;;
  fetched <-
    try_except
      (names <- api_client (GET names_endpoint [(lit "random_items", PInt 3)]) ;;
       unpack3 names)
      (fun e =>
         match e with
         | ResponseCodeError status =>
             log ERROR (lit "Failed to get new off topic channel names: code "
                        ++ str_of_int status) ;;
             raise e
         | _ => raise e
         end) ;;
  let '(channel_0_name, channel_1_name, channel_2_name) := fetched in
  let '(id_0, id_1, id_2) := CHANNELS in
  channel_0 <- get_channel id_0 ;;
  channel_1 <- get_channel id_1 ;;
  channel_2 <- get_channel id_2 ;;
  edit channel_0 (lit "ot0-" ++ channel_0_name) ;;
  edit channel_1 (lit "ot1-" ++ channel_1_name) ;;
  edit channel_2 (lit "ot2-" ++ channel_2_name) ;;
  log DEBUG (lit "Updated off-topic channel names to"
             ++ lit " " ++ channel_0_name ++ lit ", " ++ channel_1_name
             ++ lit " and " ++ channel_2_name).

Definition otname_group (ctx : Context) : M unit := send_help.

Definition _add_name (ctx : Context) (name : str) : M unit :=
  api_client (POST names_endpoint [(lit "name", PStr name)]) ;;
  log INFO (author ctx ++ lit " added the off-topic channel name '"
            ++ name ++ lit "'") ;;
  send (lit ":ok_hand: Added `" ++ name ++ lit "` to the names list.").

Definition too_similar (name match_ : str) : str :=
  lit ":x: The channel name `" ++ name ++ lit "` is too similar to `"
  ++ match_ ++ lit "`, and thus was not added. "
  ++ lit "Use `" ++ prefix ++ lit "otn forceadd` to override this check.".

Definition add_command (ctx : Context) (name : str) : M unit :=
  existing_names <- api_client (GET names_endpoint []) ;;
  close_match <- lift (get_close_matches name existing_names 1 0.8) ;;
  match close_match with
  | match_ :: _ =>
      log INFO (author ctx ++ lit " tried to add channel name '" ++ name
                ++ lit "' but it was too similar to '" ++ match_ ++ lit "'") ;;
      send (too_similar name match_)
  | [] => _add_name ctx name
  end.

Definition force_add_command (ctx : Context) (name : str) : M unit :=
  _add_name ctx name.

Definition delete_command (ctx : Context) (name : str) : M unit :=
  api_client (DELETE (lit "bot/off-topic-channel-names/" ++ name)) ;;
  log INFO (author ctx ++ lit " deleted the off-topic channel name '"
            ++ name ++ lit "'") ;;
  send (lit ":ok_hand: Removed `" ++ name ++ lit "` from the names list.").

Definition list_command (ctx : Context) : M unit :=
  result <- api_client (GET names_endpoint []) ;;
  let lines := sorted (map bullet result) in
  let embed :=
    mkEmbed (lit "Known off-topic names (`" ++ str_of_nat (length result)
             ++ lit "` total)") blue None in
  match result with
  | _ :: _ => paginate lines embed 400 false
  | [] =>
      send_embed
        (mkEmbed (title embed) (colour embed)
           (Some (lit "Hmmm, seems like there's nothing here yet.")))
  end.

(** [OffTopicName.translate_name(name, from_unicode=False).lower()] *)
Definition normalize (name : str) : str := lower (translate_name name false).

Definition search_command (ctx : Context) (query : str) : M unit :=
  let query := normalize query in
  names <- api_client (GET names_endpoint []) ;;
  (* Map normalized names to returned names for search purposes *)
  let result := dict_comprehension normalize names in
  (* Search normalized keys *)
  let in_matches : gset str :=
    list_to_set (List.filter (fun name => contains query name) (dict_keys result)) in
  close_matches <- lift (get_close_matches query (dict_keys result) 10 0.70) ;;
  (* Send Results *)
  found <- traverse
             (fun name => match dict_get name result with
                          | Some original => ret (bullet original)
                          | None => raise (KeyError name)
                          end)
             (elements (in_matches ∪ list_to_set close_matches)) ;;
  let lines := sorted found in
  let embed := mkEmbed (lit "Query results") blue None in
  match lines with
  | _ :: _ => paginate lines embed 400 false
  | [] =>
      send_embed (mkEmbed (title embed) (colour embed) (Some (lit "Nothing found.")))
  end.

(** *** The search result, as the specification words it *)

(** The normalized keys of the stored names. *)
Definition normalized_keys (names : list str) : list str :=
  first_occurrences (map normalize names).

(** The stored name a normalized key is mapped back to: the last one, in
    the order of the site's answer, that normalizes to the key. *)
Definition original_name (names : list str) (key : str) : option str :=
  last (List.filter (fun name => bool_decide (normalize name = key)) names).

(** The union of the substring matches and the similarity matches on the
    normalized keys, deduplicated, mapped back to the stored names, sorted. *)
Definition search_results (query : str) (names close_matches : list str) : list str :=
  let substring_matches :=
    List.filter (fun key => contains (normalize query) key) (normalized_keys names) in
  sorted (omap (fun key => bullet <$> original_name names key)
            (remove_dups (substring_matches ++ close_matches))).

(** [@tasks.loop(time=datetime.time(), reconnect=True)], with the exception
    types the library handles from the start. *)
Definition update_names_loop (handled : list exn_class) : Loop :=
  mkLoop handled true false false.

(** Unfolds a coroutine down to the answers of the outside. *)
Ltac run_coroutine c :=
  cbv [c bind try_except ret raise lift api_client perform log record_event
       wait_until_guild_available unpack3 get_channel edit send send_embed
       paginate CHANNELS].

(** Case analysis on what the channel cache and the chat platform answer. *)
Ltac outside_cases w :=
  repeat first
    [ progress cbn
    | match goal with
      | |- context [channels w !! ?k] => destruct (channels w !! k)
      | |- context [gateway w ?ev] => destruct (gateway w ev)
      end ].

(** ** Facts about the Python values *)

Lemma str_leb_refl a : str_leb a a = true.
Proof.
  induction a as [|x a IH]; simpl; [done|].
  by rewrite N.ltb_irrefl, N.eqb_refl.
Qed.

Lemma str_leb_total a b : str_leb a b = true \/ str_leb b a = true.
Proof.
  revert b; induction a as [|x a IH]; intros [|y b]; simpl; auto.
  destruct (N.ltb_spec x y), (N.ltb_spec y x), (N.eqb_spec x y), (N.eqb_spec y x);
    auto; lia.
Qed.

Lemma str_leb_trans a b c :
  str_leb a b = true -> str_leb b c = true -> str_leb a c = true.
Proof.
  revert b c; induction a as [|x a IH]; intros [|y b] [|z c]; simpl; auto; try done.
  destruct (N.ltb_spec x y), (N.ltb_spec y z), (N.ltb_spec x z),
    (N.eqb_spec x y), (N.eqb_spec y z), (N.eqb_spec x z);
    try done; try lia; eauto.
Qed.

Lemma str_leb_antisym a b :
  str_leb a b = true -> str_leb b a = true -> a = b.
Proof.
  revert b; induction a as [|x a IH]; intros [|y b]; simpl; try done.
  destruct (N.ltb_spec x y), (N.ltb_spec y x), (N.eqb_spec x y), (N.eqb_spec y x);
    try done; try lia.
  intros; f_equal; auto.
Qed.

#[global] Instance str_le_preorder : PreOrder str_le.
Proof.
  split.
  - intros a. apply str_leb_refl.
  - intros a b c. apply str_leb_trans.
Qed.

#[global] Instance str_le_antisym : AntiSymm (=) str_le.
Proof. intros a b. apply str_leb_antisym. Qed.

#[global] Instance str_le_total : Total str_le.
Proof. intros a b. apply str_leb_total. Qed.

(** [sorted] rearranges its argument into ascending order, and no other
    list does. *)
Lemma sorted_Permutation xs : sorted xs ≡ₚ xs.
Proof. apply merge_sort_Permutation. Qed.

Lemma sorted_StronglySorted xs : StronglySorted str_le (sorted xs).
Proof. apply StronglySorted_merge_sort; apply _. Qed.

Lemma sorted_characterized xs ys :
  StronglySorted str_le ys -> ys ≡ₚ xs -> sorted xs = ys.
Proof.
  intros Hs Hp. apply (StronglySorted_unique str_le); [apply sorted_StronglySorted|done|].
  by rewrite sorted_Permutation.
Qed.

Lemma sorted_unique xs ys : xs ≡ₚ ys -> sorted xs = sorted ys.
Proof.
  intros Hp. apply sorted_characterized; [apply sorted_StronglySorted|].
  by rewrite sorted_Permutation.
Qed.

Lemma sorted_nil_iff xs : sorted xs = [] <-> xs = [].
Proof.
  split; [|by intros ->].
  intros H. apply Permutation_nil. by rewrite <- H, sorted_Permutation.
Qed.

Lemma elem_of_sorted x xs : x ∈ sorted xs <-> x ∈ xs.
Proof. by rewrite sorted_Permutation. Qed.

Lemma bullet_le a b : str_le (bullet a) (bullet b) <-> str_le a b.
Proof. unfold str_le, bullet. by simpl. Qed.

Lemma bullet_inj a b : bullet a = bullet b -> a = b.
Proof. unfold bullet. by intros ?%(inj (app _)). Qed.

(** Sorting the bulleted lines sorts the names. *)
Lemma sorted_bullet xs : sorted (map bullet xs) = map bullet (sorted xs).
Proof.
  apply sorted_characterized.
  - apply (StronglySorted_fmap bullet str_le str_le).
    + intros a b. apply bullet_le.
    + apply sorted_StronglySorted.
  - apply fmap_Permutation, sorted_Permutation.
Qed.

(** Dictionaries: a key is looked up to the value last assigned to it, and
    the keys stand in the order of their first assignment. *)
Lemma dict_get_set {V} (k k' : str) (v : V) (d : dict V) :
  dict_get k (dict_set k' v d) = if decide (k' = k) then Some v else dict_get k d.
Proof.
  induction d as [|[k0 v0] d IH]; simpl.
  - by destruct (decide (k' = k)).
  - destruct (decide (k0 = k')) as [->|Hne]; simpl.
    + by destruct (decide (k' = k)).
    + rewrite IH. destruct (decide (k0 = k)) as [->|]; [|done].
      by destruct (decide (k' = k)); [subst|].
Qed.

Lemma dict_keys_set {V} (k : str) (v : V) (d : dict V) :
  dict_keys (dict_set k v d)
  = if decide (k ∈ dict_keys d) then dict_keys d else dict_keys d ++ [k].
Proof.
  unfold dict_keys. induction d as [|[k0 v0] d IH]; simpl.
  - destruct (decide (k ∈ [])) as [H|]; [by apply elem_of_nil in H|done].
  - destruct (decide (k0 = k)) as [->|Hne]; simpl.
    + destruct (decide (k ∈ k :: map fst d)) as [|H]; [done|].
      exfalso; apply H; left.
    + rewrite IH. destruct (decide (k ∈ map fst d)) as [Hin|Hin].
      * destruct (decide (k ∈ k0 :: map fst d)) as [|H]; [done|].
        exfalso; apply H; by right.
      * destruct (decide (k ∈ k0 :: map fst d)) as [H|]; [|done].
        apply elem_of_cons in H as [->|]; done.
Qed.

Lemma dict_get_is_Some {V} (k : str) (d : dict V) :
  is_Some (dict_get k d) <-> k ∈ dict_keys d.
Proof.
  unfold dict_keys. induction d as [|[k0 v0] d IH]; simpl.
  - split; [by intros [? ?]|by intros ?%elem_of_nil].
  - destruct (decide (k0 = k)) as [->|Hne].
    + split; [left|by eexists].
    + rewrite IH. split; [by right|].
      intros [->|]%elem_of_cons; done.
Qed.

Lemma dict_keys_comprehension (key : str -> str) (xs : list str) :
  dict_keys (dict_comprehension key xs) = first_occurrences (map key xs).
Proof.
  unfold dict_comprehension, first_occurrences.
  change (@nil str) with (dict_keys (@nil (str * str))) at 2.
  generalize (@nil (str * str)).
  induction xs as [|x xs IH]; intros d; simpl; [done|].
  by rewrite IH, dict_keys_set.
Qed.

Lemma dict_get_comprehension (key : str -> str) (xs : list str) (k : str) :
  dict_get k (dict_comprehension key xs)
  = last (List.filter (fun x => bool_decide (key x = k)) xs).
Proof.
  unfold dict_comprehension.
  induction xs as [|x xs IH] using rev_ind; [done|].
  rewrite fold_left_app, List.filter_app. simpl.
  rewrite dict_get_set, IH.
  destruct (decide (key x = k)) as [Hk|Hk].
  - rewrite (bool_decide_eq_true_2 _ Hk). by rewrite last_snoc.
  - rewrite (bool_decide_eq_false_2 _ Hk). by rewrite app_nil_r.
Qed.

Lemma elem_of_first_occurrences (x : str) (xs : list str) :
  x ∈ first_occurrences xs <-> x ∈ xs.
Proof.
  clear off_topic_0 off_topic_1 off_topic_2 prefix translate_name lower
    get_close_matches.
  unfold first_occurrences.
  assert (forall seen, x ∈ fold_left
            (fun seen x => if decide (x ∈ seen) then seen else seen ++ [x]) xs seen
          <-> x ∈ seen \/ x ∈ xs) as H.
  { induction xs as [|y xs IH]; intros seen; simpl.
    - rewrite elem_of_nil. tauto.
    - rewrite IH, elem_of_cons. destruct (decide (y ∈ seen)) as [Hy|Hy].
      + split; [tauto|]. intros [?|[->|?]]; auto.
      + rewrite elem_of_app, list_elem_of_singleton. tauto. }
  rewrite H, elem_of_nil. tauto.
Qed.

Lemma NoDup_first_occurrences (xs : list str) : NoDup (first_occurrences xs).
Proof.
  unfold first_occurrences.
  assert (forall seen, NoDup seen -> NoDup (fold_left
            (fun seen x => if decide (x ∈ seen) then seen else seen ++ [x]) xs seen)) as H.
  { induction xs as [|y xs IH]; intros seen Hs; simpl; [done|].
    apply IH. destruct (decide (y ∈ seen)) as [Hy|Hy]; [done|].
    apply NoDup_app. split_and!; [done| |apply NoDup_singleton].
    by intros z Hz ->%list_elem_of_singleton. }
  apply H, NoDup_nil_2.
Qed.

(** The last element that satisfies [p]: where it stands. *)
Lemma last_filter_position {A} (p : A -> bool) (l : list A) (x : A) :
  last (List.filter p l) = Some x ->
  exists i, l !! i = Some x /\ p x = true
            /\ forall j y, l !! j = Some y -> p y = true -> j <= i.
Proof.
  induction l as [|y l IH] using rev_ind; [done|].
  rewrite List.filter_app. simpl. destruct (p y) eqn:Hy.
  - rewrite last_snoc. intros [= ->]. exists (length l). split_and!.
    + by rewrite lookup_app_r, Nat.sub_diag.
    + done.
    + intros j z Hj _. apply lookup_lt_Some in Hj.
      rewrite length_app in Hj. simpl in Hj. lia.
  - rewrite app_nil_r. intros (i & Hi & Hx & Hlast)%IH. exists i. split_and!.
    + by apply lookup_app_l_Some.
    + done.
    + intros j z Hj Hz. destruct (decide (j < length l)) as [Hlt|Hge].
      * rewrite lookup_app_l in Hj by done. eauto.
      * rewrite lookup_app_r in Hj by lia.
        destruct (j - length l) as [|n] eqn:E; simpl in Hj; [|done].
        injection Hj as <-. congruence.
Qed.

(** ** Facts about coroutines *)

Lemma emit_emit (evs1 evs2 : list event) (w : world) :
  emit evs2 (emit evs1 w) = emit (evs1 ++ evs2) w.
Proof. unfold emit; simpl. by rewrite <- app_assoc. Qed.

Lemma calls_journal {A} (m : M A) (w : world) (evs : list event) :
  journal (snd (m w)) = journal w ++ evs -> calls m w = evs.
Proof. unfold calls. intros ->. apply drop_app_length. Qed.

Lemma calls_emit {A} (m : M A) (w : world) (o : outcome A) (evs : list event) :
  m w = (o, emit evs w) -> calls m w = evs.
Proof. intros H. apply calls_journal. by rewrite H. Qed.

Lemma bind_api_client {B} (r : request) (k : list str -> M B) (w : world) :
  bind (api_client r) k w
  = match site w r with
    | Returned a => k a (emit [ApiCall r] w)
    | Raised e => (Raised e, emit [ApiCall r] w)
    end.
Proof. unfold bind, api_client, record_event. by destruct (site w r). Qed.

Lemma bind_log {B} (lv : level) (msg : str) (k : unit -> M B) (w : world) :
  bind (log lv msg) k w = k tt (emit [LogRecord lv msg] w).
Proof. reflexivity. Qed.

Lemma perform_run (ev : event) (w : world) :
  perform ev w = (answer w ev, emit [ev] w).
Proof. reflexivity. Qed.

Lemma bind_lift {A B} (o : outcome A) (k : A -> M B) (w : world) :
  bind (lift o) k w
  = match o with
    | Returned a => k a w
    | Raised e => (Raised e, w)
    end.
Proof. unfold bind, lift. by destruct o. Qed.

(** [_add_name]: the request, and when the site accepts it, the log record
    and the confirmation. *)
Lemma _add_name_run (ctx : Context) (name : str) (w : world) :
  let r := POST names_endpoint [(lit "name", PStr name)] in
  let confirmation :=
    CtxSend (lit ":ok_hand: Added `" ++ name ++ lit "` to the names list.") in
  _add_name ctx name w
  = match site w r with
    | Returned _ =>
        (answer w confirmation,
         emit [ApiCall r;
               LogRecord INFO (author ctx ++ lit " added the off-topic channel name '"
                               ++ name ++ lit "'");
               confirmation] w)
    | Raised e => (Raised e, emit [ApiCall r] w)
    end.
Proof.
  intros r confirmation. unfold _add_name. rewrite bind_api_client. fold r.
  destruct (site w r) as [payload|e]; [|done].
  rewrite bind_log. unfold send. rewrite perform_run. simpl.
  by rewrite !emit_emit.
Qed.

(** ** The commands *)

(** C2. [otname forceadd]: for every name and every state of the site, the
    command posts the name and, the site having accepted it, records and
    sends the confirmation.  The post is its only request: the stored names
    are not fetched and no similarity comparison is made, so the outcome is
    the same however close the name is to a stored one. *)
Theorem force_add_command_submits (ctx : Context) (name : str) (w : world)
    (payload : list str) :
  let r := POST names_endpoint [(lit "name", PStr name)] in
  let confirmation :=
    CtxSend (lit ":ok_hand: Added `" ++ name ++ lit "` to the names list.") in
  site w r = Returned payload ->
  force_add_command ctx name w
  = (answer w confirmation,
     emit [ApiCall r;
           LogRecord INFO (author ctx ++ lit " added the off-topic channel name '"
                           ++ name ++ lit "'");
           confirmation] w)
  /\ requests (calls (force_add_command ctx name) w) = [r].
Proof.
  intros r confirmation Hsite.
  assert (force_add_command ctx name w
          = (answer w confirmation,
             emit [ApiCall r;
                   LogRecord INFO (author ctx ++ lit " added the off-topic channel name '"
                                   ++ name ++ lit "'");
                   confirmation] w)) as Hrun.
  { unfold force_add_command. rewrite _add_name_run. fold r. by rewrite Hsite. }
  split; [done|]. by rewrite (calls_emit _ _ _ _ Hrun).
Qed.

(** X15. [otname forceadd] when the site answers the post with an error:
    the error propagates after the one request, and nothing is recorded or
    confirmed. *)
Lemma force_add_command_refused (ctx : Context) (name : str) (w : world) (e : exn) :
  let r := POST names_endpoint [(lit "name", PStr name)] in
  site w r = Raised e ->
  force_add_command ctx name w = (Raised e, emit [ApiCall r] w).
Proof.
  intros r Hsite. unfold force_add_command. rewrite _add_name_run. fold r.
  by rewrite Hsite.
Qed.

(** C7. [otname delete]: for every name, the command makes one request to
    the site, the removal of exactly that name; whatever the site returns,
    it then records and sends the confirmation.  The answer is not looked
    at, and the command has no branch. *)
Theorem delete_command_removes_and_confirms (ctx : Context) (name : str)
    (w : world) (payload : list str) :
  let r := DELETE (lit "bot/off-topic-channel-names/" ++ name) in
  let confirmation :=
    CtxSend (lit ":ok_hand: Removed `" ++ name ++ lit "` from the names list.") in
  site w r = Returned payload ->
  delete_command ctx name w
  = (answer w confirmation,
     emit [ApiCall r;
           LogRecord INFO (author ctx ++ lit " deleted the off-topic channel name '"
                           ++ name ++ lit "'");
           confirmation] w)
  /\ requests (calls (delete_command ctx name) w) = [r].
Proof.
  intros r confirmation Hsite.
  assert (delete_command ctx name w
          = (answer w confirmation,
             emit [ApiCall r;
                   LogRecord INFO (author ctx ++ lit " deleted the off-topic channel name '"
                                   ++ name ++ lit "'");
                   confirmation] w)) as Hrun.
  { unfold delete_command. rewrite bind_api_client. fold r. rewrite Hsite.
    rewrite bind_log. unfold send. rewrite perform_run. simpl.
    by rewrite !emit_emit. }
  split; [done|]. by rewrite (calls_emit _ _ _ _ Hrun).
Qed.

(** X14. [otname delete] when the site answers the removal with an error
    (as it may for a name it does not store): the error propagates after
    the one request, and nothing is recorded or confirmed. *)
Lemma delete_command_refused (ctx : Context) (name : str) (w : world) (e : exn) :
  let r := DELETE (lit "bot/off-topic-channel-names/" ++ name) in
  site w r = Raised e ->
  delete_command ctx name w = (Raised e, emit [ApiCall r] w).
Proof.
  intros r Hsite. unfold delete_command. rewrite bind_api_client. fold r.
  by rewrite Hsite.
Qed.

(** C1. [otname add]: for every name and every list of stored names the
    site returns, with [close_match] what
    [difflib.get_close_matches(name, existing_names, n=1, cutoff=0.8)]
    returns: the name is posted exactly when [close_match] is empty; when it
    is not, the fetch is the only request, and the log record and the
    message sent to the user both spell out the name and the first element
    of [close_match], the message pointing to [forceadd]; when it is, the
    name is posted and, the site having accepted it, confirmed. *)
Theorem add_command_rejects_close_match (ctx : Context) (name : str) (w : world)
    (existing_names close_match : list str) :
  let fetch := GET names_endpoint [] in
  let submit := POST names_endpoint [(lit "name", PStr name)] in
  site w fetch = Returned existing_names ->
  get_close_matches name existing_names 1 0.8 = Returned close_match ->
  (close_match <> [] <-> submit ∉ requests (calls (add_command ctx name) w))
  /\ (forall match_ rest, close_match = match_ :: rest ->
        let rejection :=
          CtxSend (lit ":x: The channel name `" ++ name ++ lit "` is too similar to `"
                   ++ match_ ++ lit "`, and thus was not added. "
                   ++ lit "Use `" ++ prefix ++ lit "otn forceadd` to override this check.") in
        add_command ctx name w
        = (answer w rejection,
           emit [ApiCall fetch;
                 LogRecord INFO (author ctx ++ lit " tried to add channel name '" ++ name
                                 ++ lit "' but it was too similar to '" ++ match_ ++ lit "'");
                 rejection] w))
  /\ (close_match = [] ->
        requests (calls (add_command ctx name) w) = [fetch; submit]
        /\ forall payload, site w submit = Returned payload ->
             let confirmation :=
               CtxSend (lit ":ok_hand: Added `" ++ name ++ lit "` to the names list.") in
             add_command ctx name w
             = (answer w confirmation,
                emit [ApiCall fetch; ApiCall submit;
                      LogRecord INFO (author ctx ++ lit " added the off-topic channel name '"
                                      ++ name ++ lit "'");
                      confirmation] w)).
Proof.
  intros fetch submit Hfetch Hclose.
  assert (add_command ctx name w
          = match close_match with
            | match_ :: _ =>
                (answer w (CtxSend (too_similar name match_)),
                 emit [ApiCall fetch;
                       LogRecord INFO (author ctx ++ lit " tried to add channel name '" ++ name
                                       ++ lit "' but it was too similar to '" ++ match_
                                       ++ lit "'");
                       CtxSend (too_similar name match_)] w)
            | [] => _add_name ctx name (emit [ApiCall fetch] w)
            end) as Hrun.
  { unfold add_command. rewrite bind_api_client. fold fetch. rewrite Hfetch.
    rewrite bind_lift, Hclose. destruct close_match as [|match_ rest]; [done|].
    rewrite bind_log. unfold send. rewrite perform_run. simpl.
    by rewrite !emit_emit. }
  assert (close_match = [] ->
          requests (calls (add_command ctx name) w) = [fetch; submit]) as Hsubmitted.
  { intros ->. rewrite _add_name_run in Hrun. fold submit in Hrun. simpl in Hrun.
    destruct (site w submit) as [payload|e];
      rewrite emit_emit in Hrun; by rewrite (calls_emit _ _ _ _ Hrun). }
  split_and!.
  - destruct close_match as [|match_ rest].
    + rewrite Hsubmitted by done. split; [done|].
      intros H. exfalso. apply H. right. left.
    + rewrite (calls_emit _ _ _ _ Hrun). split; [|done].
      intros _ [?|?%elem_of_nil]%elem_of_cons; done.
  - intros match_ rest -> rejection. exact Hrun.
  - intros ->. split; [by apply Hsubmitted|].
    intros payload Hsubmit confirmation. rewrite Hrun, _add_name_run.
    fold submit. simpl. rewrite Hsubmit. by rewrite emit_emit.
Qed.

(** Decimal numerals determine the number. *)
Lemma lit_inj (s t : string) : lit s = lit t -> s = t.
Proof.
  unfold lit. intros H.
  rewrite <- (String.string_of_list_ascii_of_string s),
          <- (String.string_of_list_ascii_of_string t).
  f_equal. revert H.
  generalize (String.list_ascii_of_string s) (String.list_ascii_of_string t).
  induction l as [|a l IH]; intros [|b l']; simpl; try done.
  intros [= Hab Hl]. f_equal; [|by apply IH].
  by rewrite <- (ascii_N_embedding a), <- (ascii_N_embedding b), Hab.
Qed.

Lemma str_of_nat_inj (n m : nat) : str_of_nat n = str_of_nat m -> n = m.
Proof.
  unfold str_of_nat. intros H%lit_inj.
  assert (forall k, Nat.to_uint k <> Decimal.Nil) as Hnz.
  { intros k. rewrite <- (DecimalNat.Unsigned.of_to k) at 1.
    rewrite DecimalNat.Unsigned.to_of. apply DecimalFacts.unorm_nonnil. }
  apply DecimalNat.Unsigned.to_uint_inj.
  assert (Some (Nat.to_uint n) = Some (Nat.to_uint m)) as [=]; [|done].
  rewrite <- (NilZero.usu _ (Hnz n)), <- (NilZero.usu _ (Hnz m)). by rewrite H.
Qed.

Lemma occurrences_Permutation (x : str) (xs ys : list str) :
  xs ≡ₚ ys -> occurrences x xs = occurrences x ys.
Proof.
  unfold occurrences. induction 1 as [|y xs ys _ IH|y z xs|xs ys zs _ IH1 _ IH2]; simpl.
  - done.
  - destruct (bool_decide (y = x)); simpl; by rewrite IH.
  - by destruct (bool_decide (y = x)), (bool_decide (z = x)).
  - by rewrite IH1.
Qed.

Lemma occurrences_bullet (x : str) (xs : list str) :
  occurrences (bullet x) (map bullet xs) = occurrences x xs.
Proof.
  unfold occurrences. induction xs as [|y xs IH]; simpl; [done|].
  destruct (decide (y = x)) as [->|Hne].
  - rewrite !bool_decide_eq_true_2 by done. simpl. by rewrite IH.
  - rewrite !bool_decide_eq_false_2; [done|done|].
    by intros ?%bullet_inj.
Qed.

(** [otname list], run from a world whose site returns [names]. *)
Lemma list_command_run (ctx : Context) (w : world) (names : list str) :
  let fetch := GET names_endpoint [] in
  let heading :=
    lit "Known off-topic names (`" ++ str_of_nat (length names) ++ lit "` total)" in
  let shown :=
    match names with
    | [] => CtxSendEmbed
              (mkEmbed heading blue
                 (Some (lit "Hmmm, seems like there's nothing here yet.")))
    | _ :: _ => Paginate (sorted (map bullet names)) (mkEmbed heading blue None) 400 false
    end in
  site w fetch = Returned names ->
  list_command ctx w = (answer w shown, emit [ApiCall fetch; shown] w).
Proof.
  intros fetch heading shown Hfetch. unfold list_command.
  rewrite bind_api_client. fold fetch. rewrite Hfetch. subst shown.
  destruct names as [|name names]; unfold send_embed, paginate;
    rewrite perform_run; simpl; by rewrite emit_emit.
Qed.

(** C4. [otname list]: for every list of names the site returns, the lines
    handed to the paginator are the names in ascending order, one bulleted
    line each, and the embed with the empty-state message is sent exactly
    when the list is empty (and then nothing is paginated). *)
Theorem list_command_sorted (ctx : Context) (w : world) (names : list str) :
  site w (GET names_endpoint []) = Returned names ->
  shown_lines (calls (list_command ctx) w)
  = match names with
    | [] => []
    | _ :: _ => [map bullet (sorted names)]
    end
  /\ StronglySorted str_le (sorted names)
  /\ sorted names ≡ₚ names
  /\ (empty_state_shown (lit "Hmmm, seems like there's nothing here yet.")
        (calls (list_command ctx) w)
      <-> names = []).
Proof.
  intros Hfetch.
  pose proof (list_command_run ctx w names Hfetch) as Hrun. simpl in Hrun.
  rewrite (calls_emit _ _ _ _ Hrun).
  split_and!.
  - destruct names; simpl; [done|]. by rewrite <- sorted_bullet.
  - apply sorted_StronglySorted.
  - apply sorted_Permutation.
  - unfold empty_state_shown. destruct names as [|name names].
    + split; [done|]. intros _. eexists. split; [right; left|done].
    + split; [|done]. intros (e & He & Hd).
      apply elem_of_cons in He as [?|He]; [done|].
      by apply list_elem_of_singleton in He.
Qed.

(** C10. [otname list] keeps every fetched name: the heading of the embed
    shows the number of names fetched (in both branches), and the
    paginated lines are as many as the names, a name fetched [k] times
    giving [k] equal lines. *)
Theorem list_command_keeps_every_name (ctx : Context) (w : world) (names : list str) :
  let heading (n : nat) :=
    lit "Known off-topic names (`" ++ str_of_nat n ++ lit "` total)" in
  site w (GET names_endpoint []) = Returned names ->
  map title (shown_embeds (calls (list_command ctx) w)) = [heading (length names)]
  /\ (forall n, heading n = heading (length names) -> n = length names)
  /\ (names <> [] ->
      exists lines,
        shown_lines (calls (list_command ctx) w) = [lines]
        /\ length lines = length names
        /\ forall name, occurrences (bullet name) lines = occurrences name names).
Proof.
  intros heading Hfetch.
  pose proof (list_command_run ctx w names Hfetch) as Hrun. simpl in Hrun.
  rewrite (calls_emit _ _ _ _ Hrun).
  split_and!.
  - by destruct names.
  - intros n Hn. unfold heading in Hn.
    apply (inj (app _)), (inj (fun s => s ++ _)) in Hn. by apply str_of_nat_inj.
  - intros Hne. destruct names as [|name names]; [done|].
    eexists. split; [done|]. split.
    + by rewrite sorted_Permutation, length_map.
    + intros x. rewrite (occurrences_Permutation _ _ _ (sorted_Permutation _)).
      apply occurrences_bullet.
Qed.

(** ** The daily task *)

(** C6. When the site answers the fetch with an error status, the run
    records the error and raises the same exception again; the fetch is its
    only call to the outside besides the log record, so no channel is
    edited and the cached channels are as before.  The exception is of the
    type that [__init__] registered with the loop, which therefore backs off
    and runs the task again. *)
Theorem update_names_fetch_error (w : world) (status : Z) :
  let fetch := GET names_endpoint [(lit "random_items", PInt 3)] in
  site w fetch = Raised (ResponseCodeError status) ->
  update_names w
  = (Raised (ResponseCodeError status),
     emit [ApiCall fetch;
           LogRecord ERROR (lit "Failed to get new off topic channel names: code "
                            ++ str_of_int status)] w)
  /\ edits (calls update_names w) = []
  /\ channels (snd (update_names w)) = channels w
  /\ forall handled,
       retries (__init__ (update_names_loop handled)) (ResponseCodeError status) = true.
Proof.
  intros fetch Hfetch.
  assert (update_names w
          = (Raised (ResponseCodeError status),
             emit [ApiCall fetch;
                   LogRecord ERROR (lit "Failed to get new off topic channel names: code "
                                    ++ str_of_int status)] w)) as Hrun.
  { run_coroutine update_names. fold fetch. rewrite Hfetch. simpl.
    by rewrite emit_emit. }
  split_and!.
  - done.
  - by rewrite (calls_emit _ _ _ _ Hrun).
  - by rewrite Hrun.
  - intros handled. unfold retries, __init__, update_names_loop. simpl.
    apply bool_decide_eq_true_2, elem_of_app. right. left.
Qed.

(** X13. After [cog_unload] the loop handles no exception type, whatever it
    handled before, so that no exception of a run is retried; a loop that
    is running goes on running and is flagged to exit after the iteration
    under way, and the other settings are kept. *)
Lemma cog_unload_stops (update_names_loop : Loop) (e : exn) :
  retries (cog_unload update_names_loop) e = false
  /\ valid_exception (cog_unload update_names_loop) = []
  /\ running (cog_unload update_names_loop) = running update_names_loop
  /\ reconnect (cog_unload update_names_loop) = reconnect update_names_loop
  /\ (running update_names_loop = true ->
      _stop_next_iteration (cog_unload update_names_loop) = true).
Proof.
  unfold retries, cog_unload, stop, clear_exception_types. cbn.
  destruct (running update_names_loop) eqn:Hrunning; cbn;
    rewrite ?Hrunning; split_and!; try done; apply andb_false_r.
Qed.

(** C8. When the site returns a list that does not have exactly three
    names, unpacking it raises [ValueError] right after the fetch: no
    channel is edited.  So a run that edits a channel has fetched exactly
    three names. *)
Theorem update_names_needs_three_names (w : world) (names : list str) :
  let fetch := GET names_endpoint [(lit "random_items", PInt 3)] in
  site w fetch = Returned names ->
  (length names <> 3 ->
     update_names w = (Raised ValueError, emit [ApiCall fetch] w)
     /\ channels (snd (update_names w)) = channels w)
  /\ (edits (calls update_names w) <> [] -> length names = 3).
Proof.
  intros fetch Hfetch.
  assert (length names <> 3 ->
          update_names w = (Raised ValueError, emit [ApiCall fetch] w)) as Hrun.
  { intros Hlen. run_coroutine update_names. fold fetch. rewrite Hfetch.
    by destruct names as [|n0 [|n1 [|n2 [|n3 names]]]]. }
  split.
  - intros Hlen. split; [by apply Hrun|]. by rewrite Hrun.
  - intros Hedits. destruct (decide (length names = 3)) as [|Hlen]; [done|].
    exfalso. apply Hedits. by rewrite (calls_emit _ _ _ _ (Hrun Hlen)).
Qed.

(** C5. A run that returns has fetched three names with the one request
    [random_items=3] and has edited the three channels in the order of
    their slots: the first fetched name, after [ot0-], to [off_topic_0], the
    second, after [ot1-], to [off_topic_1], the third, after [ot2-], to
    [off_topic_2]. *)
Theorem update_names_renames_in_slot_order (w w' : world) :
  let fetch := GET names_endpoint [(lit "random_items", PInt 3)] in
  update_names w = (Returned tt, w') ->
  exists name_0 name_1 name_2,
    site w fetch = Returned [name_0; name_1; name_2]
    /\ requests (calls update_names w) = [fetch]
    /\ edits (calls update_names w)
       = [(off_topic_0, lit "ot0-" ++ name_0);
          (off_topic_1, lit "ot1-" ++ name_1);
          (off_topic_2, lit "ot2-" ++ name_2)]
    /\ channels w'
       = <[off_topic_2 := lit "ot2-" ++ name_2]>
           (<[off_topic_1 := lit "ot1-" ++ name_1]>
              (<[off_topic_0 := lit "ot0-" ++ name_0]> (channels w))).
Proof.
  intros fetch Hrun.
  assert (calls update_names w = drop (length (journal w)) (journal w')) as Hcalls.
  { unfold calls. by rewrite Hrun. }
  rewrite Hcalls. clear Hcalls. revert Hrun.
  run_coroutine update_names. fold fetch.
  destruct (site w fetch) as [names|e].
  2: { destruct e; simpl; try done. }
  destruct names as [|name_0 [|name_1 [|name_2 [|name_3 names]]]]; try done.
  simpl.
  repeat first
    [ progress simpl
    | match goal with
      | |- context [channels w !! ?k] => destruct (channels w !! k)
      | |- context [gateway w ?ev] => destruct (gateway w ev)
      end ];
    try done.
  intros [= <-]. exists name_0, name_1, name_2. simpl.
  rewrite <- !app_assoc, drop_app_length. done.
Qed.

(** ** The search command *)

(** [q in s] holds exactly when [s] is [q] with something before and after. *)
Lemma startswith_spec (p s : str) :
  startswith p s = true <-> exists rest, s = p ++ rest.
Proof.
  revert s; induction p as [|a p IH]; intros s; simpl.
  - split; [by exists s|done].
  - destruct s as [|b s].
    + split; [done|]. by intros [rest ?].
    + destruct (N.eqb_spec a b) as [->|Hne].
      * rewrite IH. split; intros [rest H]; exists rest; [by rewrite H|].
        by injection H.
      * split; [done|]. intros [rest H]. by injection H as -> _.
Qed.

Lemma contains_spec (q s : str) :
  contains q s = true <-> exists before after, s = before ++ q ++ after.
Proof.
  induction s as [|b s IH]; simpl.
  - destruct (startswith q []) eqn:Hq.
    + split; [|done]. intros _. apply startswith_spec in Hq as [rest Hq].
      by exists [], rest.
    + split; [done|]. intros (before & after & H). exfalso.
      assert (startswith q [] = true); [|congruence].
      apply startswith_spec. symmetry in H.
      apply app_eq_nil in H as [_ H]. by exists after.
  - destruct (startswith q (b :: s)) eqn:Hq.
    + split; [|done]. intros _. apply startswith_spec in Hq as [rest Hq].
      by exists [], rest.
    + rewrite IH. split.
      * intros (before & after & ->). by exists (b :: before), after.
      * intros ([|c before] & after & H).
        -- exfalso. assert (startswith q (b :: s) = true); [|congruence].
           apply startswith_spec. by exists after.
        -- injection H as _ ->. by exists before, after.
Qed.

(** Looking up the matched keys changes nothing outside; it returns the
    bulleted values, or raises at the first key that is missing. *)
Lemma traverse_lookup (result : dict str) (keys : list str) (w : world) :
  traverse (fun name => match dict_get name result with
                        | Some original => ret (bullet original)
                        | None => raise (KeyError name)
                        end) keys w
  = (match List.find (fun key => bool_decide (dict_get key result = None)) keys with
     | Some key => Raised (KeyError key)
     | None => Returned (omap (fun key => bullet <$> dict_get key result) keys)
     end, w).
Proof.
  induction keys as [|key keys IH]; [done|].
  simpl. unfold bind at 1. destruct (dict_get key result) as [original|] eqn:Hkey.
  - rewrite bool_decide_eq_false_2 by done.
    unfold ret at 1, bind at 1. rewrite IH.
    by destruct (List.find _ keys).
  - by rewrite bool_decide_eq_true_2.
Qed.

Lemma original_name_lookup (names : list str) (key : str) :
  dict_get key (dict_comprehension normalize names) = original_name names key.
Proof. apply dict_get_comprehension. Qed.

Lemma original_name_key (names : list str) (key name : str) :
  original_name names key = Some name -> normalize name = key /\ name ∈ names.
Proof.
  intros (i & Hi & Hp & _)%last_filter_position.
  split; [by apply bool_decide_eq_true in Hp|].
  apply list_elem_of_lookup. eauto.
Qed.

Lemma original_name_is_Some (names : list str) (key : str) :
  is_Some (original_name names key) <-> key ∈ normalized_keys names.
Proof.
  rewrite <- original_name_lookup, dict_get_is_Some.
  unfold normalized_keys. by rewrite dict_keys_comprehension.
Qed.

(** What [otname search] computes from the site's names and the similarity
    matches, for any outcome of the lookups. *)
Lemma search_command_unfold (ctx : Context) (query : str) (w : world)
    (names close_matches : list str) :
  let fetch := GET names_endpoint [] in
  let embed := mkEmbed (lit "Query results") blue None in
  let in_matches : gset str :=
    list_to_set (List.filter (fun key => contains (normalize query) key)
                   (normalized_keys names)) in
  let matched := elements (in_matches ∪ list_to_set close_matches) in
  site w fetch = Returned names ->
  get_close_matches (normalize query) (normalized_keys names) 10 0.70
  = Returned close_matches ->
  search_command ctx query w
  = match List.find (fun key => bool_decide (original_name names key = None)) matched with
    | Some key => (Raised (KeyError key), emit [ApiCall fetch] w)
    | None =>
        let shown :=
          match sorted (omap (fun key => bullet <$> original_name names key) matched) with
          | [] => CtxSendEmbed (mkEmbed (lit "Query results") blue
                                  (Some (lit "Nothing found.")))
          | line :: lines => Paginate (line :: lines) embed 400 false
          end in
        (answer w shown, emit [ApiCall fetch; shown] w)
    end.
Proof.
  intros fetch embed in_matches matched Hfetch Hclose.
  unfold search_command. rewrite bind_api_client. fold fetch. rewrite Hfetch.
  rewrite dict_keys_comprehension. fold (normalized_keys names).
  rewrite bind_lift, Hclose. fold in_matches. fold matched.
  unfold bind at 1. rewrite traverse_lookup.
  rewrite (list_omap_ext _ (fun key => bullet <$> original_name names key) matched matched).
  2: { apply Forall2_same_length_lookup. split; [done|].
       intros i x y Hx Hy. rewrite Hx in Hy. injection Hy as <-.
       by rewrite original_name_lookup. }
  assert (List.find (fun key => bool_decide
                       (dict_get key (dict_comprehension normalize names) = None)) matched
          = List.find (fun key => bool_decide (original_name names key = None)) matched)
    as ->.
  { induction matched as [|k ks IH]; [done|]. simpl.
    by rewrite IH, original_name_lookup. }
  destruct (List.find _ matched); [done|].
  destruct (sorted _); unfold send_embed, paginate; rewrite perform_run; simpl;
    by rewrite emit_emit.
Qed.

Lemma find_nowhere {A} (p : A -> bool) (l : list A) :
  (forall x, x ∈ l -> p x = false) -> List.find p l = None.
Proof.
  induction l as [|x l IH]; intros H; simpl; [done|].
  rewrite (H x) by left. apply IH. intros y Hy. apply H. by right.
Qed.

Lemma NoDup_omap {A B} (f : A -> option B) (l : list A) :
  (forall x y z, f x = Some z -> f y = Some z -> x = y) ->
  NoDup l -> NoDup (omap f l).
Proof.
  intros Hinj. induction 1 as [|x l Hx Hl IH]; simpl; [constructor|].
  destruct (f x) as [z|] eqn:Hfx; [|done].
  constructor; [|done].
  intros (y & Hy & Hfy)%list_elem_of_omap.
  by rewrite (Hinj x y z Hfx Hfy) in Hx.
Qed.

(** The keys matched by [otname search], in some order: the union of the
    two sets of the source has the elements of the deduplicated list. *)
Lemma matched_keys_Permutation (l1 l2 : list str) :
  elements (list_to_set l1 ∪ list_to_set l2 : gset str) ≡ₚ remove_dups (l1 ++ l2).
Proof.
  apply NoDup_Permutation; [apply NoDup_elements|apply NoDup_remove_dups|].
  intros x. rewrite elem_of_elements, elem_of_union, !elem_of_list_to_set.
  by rewrite elem_of_remove_dups, elem_of_app.
Qed.

(** The lines of [otname search] computed through the dict and the two
    sets of the source are [search_results], and the embed that says nothing
    was found is sent exactly when there is none. *)
Lemma search_results_shown (ctx : Context) (query : str) (w : world)
    (names close_matches : list str) :
  let fetch := GET names_endpoint [] in
  let lines := search_results query names close_matches in
  site w fetch = Returned names ->
  get_close_matches (normalize query) (normalized_keys names) 10 0.70
  = Returned close_matches ->
  (forall key, key ∈ close_matches -> key ∈ normalized_keys names) ->
  calls (search_command ctx query) w
  = [ApiCall fetch;
     match lines with
     | [] => CtxSendEmbed (mkEmbed (lit "Query results") blue
                             (Some (lit "Nothing found.")))
     | _ :: _ => Paginate lines (mkEmbed (lit "Query results") blue None) 400 false
     end]
  /\ (empty_state_shown (lit "Nothing found.") (calls (search_command ctx query) w)
      <-> lines = [])
  /\ (lines = []
      <-> (forall key, key ∈ normalized_keys names ->
             contains (normalize query) key = false)
          /\ close_matches = [])
  /\ StronglySorted str_le lines
  /\ NoDup lines.
Proof.
  intros fetch lines Hfetch Hclose Hsound.
  set (substring_matches :=
         List.filter (fun key => contains (normalize query) key) (normalized_keys names)).
  set (matched := elements (list_to_set substring_matches ∪ list_to_set close_matches
                            : gset str)).
  assert (forall key, key ∈ substring_matches ++ close_matches ->
                      key ∈ normalized_keys names) as Hkeys.
  { intros key [Hin|Hin]%elem_of_app; [|by apply Hsound].
    apply list_elem_of_In, List.filter_In in Hin as [Hin _].
    by apply list_elem_of_In. }
  assert (matched ≡ₚ remove_dups (substring_matches ++ close_matches)) as Hperm
    by apply matched_keys_Permutation.
  assert (sorted (omap (fun key => bullet <$> original_name names key) matched) = lines)
    as Hlines.
  { apply sorted_unique. by rewrite Hperm. }
  assert (calls (search_command ctx query) w
          = [ApiCall fetch;
             match lines with
             | [] => CtxSendEmbed (mkEmbed (lit "Query results") blue
                                     (Some (lit "Nothing found.")))
             | _ :: _ =>
                 Paginate lines (mkEmbed (lit "Query results") blue None) 400 false
             end]) as Hcalls.
  { pose proof (search_command_unfold ctx query w names close_matches Hfetch Hclose)
      as Hrun. simpl in Hrun. fold substring_matches matched in Hrun.
    rewrite find_nowhere in Hrun.
    - rewrite Hlines in Hrun. destruct lines; by rewrite (calls_emit _ _ _ _ Hrun).
    - intros key Hkey. apply bool_decide_eq_false_2.
      assert (is_Some (original_name names key)) as [name ->]; [|done].
      apply original_name_is_Some, Hkeys.
      by rewrite <- elem_of_remove_dups, <- Hperm. }
  split_and!.
  - done.
  - rewrite Hcalls. unfold empty_state_shown. destruct lines as [|line lines'].
    + split; [done|]. intros _. eexists. split; [right; left|done].
    + split; [|done]. intros (e & He & Hd).
      apply elem_of_cons in He as [?|He]; [done|].
      by apply list_elem_of_singleton in He.
  - unfold lines, search_results. fold substring_matches.
    rewrite sorted_nil_iff. split.
    + intros Hnil.
      assert (substring_matches ++ close_matches = []) as Hnone.
      { destruct (substring_matches ++ close_matches) as [|key keys] eqn:E; [done|].
        exfalso.
        assert (key ∈ remove_dups (key :: keys)) as Hin
          by (apply elem_of_remove_dups; left).
        assert (is_Some (original_name names key)) as [name Hname].
        { apply original_name_is_Some, Hkeys. left. }
        assert (bullet name ∈ omap (fun key => bullet <$> original_name names key)
                  (remove_dups (key :: keys))) as Hline.
        { apply list_elem_of_omap. exists key. split; [done|]. by rewrite Hname. }
        rewrite Hnil in Hline. by apply elem_of_nil in Hline. }
      apply app_eq_nil in Hnone as [Hsub ->]. split; [|done].
      intros key Hkey. destruct (contains (normalize query) key) eqn:Hc; [|done].
      assert (key ∈ substring_matches) as Hin.
      { apply list_elem_of_In, List.filter_In. split; [by apply list_elem_of_In|done]. }
      rewrite Hsub in Hin. by apply elem_of_nil in Hin.
    + intros [Hnone ->]. rewrite app_nil_r.
      assert (substring_matches = []) as ->; [|done].
      destruct substring_matches as [|key keys] eqn:E; [done|]. exfalso.
      assert (key ∈ substring_matches) as Hin by (rewrite E; left).
      apply list_elem_of_In, List.filter_In in Hin as [Hin Hc].
      apply list_elem_of_In, Hnone in Hin. congruence.
  - apply sorted_StronglySorted.
  - unfold lines, search_results. rewrite sorted_Permutation.
    apply NoDup_omap; [|apply NoDup_remove_dups].
    intros x y z Hx Hy.
    destruct (original_name names x) as [nx|] eqn:Hnx; [|done].
    destruct (original_name names y) as [ny|] eqn:Hny; [|done].
    simpl in Hx, Hy. assert (nx = ny) as <- by (apply bullet_inj; congruence).
    apply original_name_key in Hnx as [<- _].
    by apply original_name_key in Hny as [<- _].
Qed.


(** The last element that satisfies [p], from where it stands. *)
Lemma last_filter_at {A} (p : A -> bool) (l : list A) (i : nat) (x : A) :
  l !! i = Some x -> p x = true ->
  (forall j y, l !! j = Some y -> p y = true -> j <= i) ->
  last (List.filter p l) = Some x.
Proof.
  clear off_topic_0 off_topic_1 off_topic_2 prefix translate_name lower get_close_matches.
  induction l as [|y l IH] using rev_ind; [done|].
  intros Hi Hx Hlast. rewrite List.filter_app. cbn.
  destruct (decide (i < length l)) as [Hlt|Hge].
  - rewrite lookup_app_l in Hi by done.
    assert (p y = false) as ->.
    { destruct (p y) eqn:Hy; [|done]. exfalso.
      assert (length l <= i); [|lia].
      apply (Hlast (length l) y); [|done].
      by rewrite lookup_app_r, Nat.sub_diag. }
    rewrite app_nil_r. apply IH; [done|done|].
    intros j z Hj Hz. apply (Hlast j z); [|done]. by apply lookup_app_l_Some.
  - rewrite lookup_app_r in Hi by lia.
    destruct (i - length l) as [|n]; cbn in Hi; [|done].
    injection Hi as ->. rewrite Hx. apply last_snoc.
Qed.

(** The stored name a key is mapped back to, by its position. *)
Lemma original_name_position (names : list str) (key name : str) :
  original_name names key = Some name
  <-> normalize name = key
      /\ exists i, names !! i = Some name
                   /\ forall j other,
                        names !! j = Some other -> normalize other = key -> j <= i.
Proof.
  clear off_topic_0 off_topic_1 off_topic_2 prefix get_close_matches.
  unfold original_name. split.
  - intros H. pose proof (last_filter_position _ _ _ H) as (i & Hi & Hp & Hlast).
    apply bool_decide_eq_true in Hp. split; [done|]. exists i. split; [done|].
    intros j other Hj Hother. apply (Hlast j other Hj).
    by apply bool_decide_eq_true_2.
  - intros [Hkey (i & Hi & Hlast)]. apply (last_filter_at _ _ i); [done| |].
    + by apply bool_decide_eq_true_2.
    + intros j other Hj Hother. apply (Hlast j other Hj).
      by apply bool_decide_eq_true in Hother.
Qed.

(** What is on the lines of [search_results]. *)
Lemma elem_of_search_results (query : str) (names close_matches : list str) (line : str) :
  line ∈ search_results query names close_matches
  <-> exists key name,
        line = bullet name
        /\ original_name names key = Some name
        /\ (contains (normalize query) key = true \/ key ∈ close_matches).
Proof.
  clear off_topic_0 off_topic_1 off_topic_2 prefix get_close_matches.
  unfold search_results. rewrite elem_of_sorted, list_elem_of_omap. split.
  - intros (key & Hkey & Hline).
    destruct (original_name names key) as [name|] eqn:Hname; [|done].
    exists key, name. split_and!; [by injection Hline|done|].
    apply elem_of_remove_dups, elem_of_app in Hkey as [Hkey|Hkey]; [left|by right].
    apply list_elem_of_In, List.filter_In in Hkey. tauto.
  - intros (key & name & -> & Hname & Hmatch). exists key.
    split; [|by rewrite Hname].
    apply elem_of_remove_dups, elem_of_app. destruct Hmatch as [Hc|Hc]; [left|by right].
    apply list_elem_of_In, List.filter_In. split; [|done].
    apply list_elem_of_In, original_name_is_Some. by eexists.
Qed.

(** C3. [otname search]: for every query and every list of names the site
    returns, with the key of a string its translation back from the
    look-alike characters ([translate_name(s, from_unicode=False)]) and
    then its lower-casing, and with [close_matches] what
    [difflib.get_close_matches(query key, keys, n=10, cutoff=0.70)] returns
    on the keys of the names (a selection of those keys): a line is shown
    exactly for a stored name that is the last one of its key in the site's
    answer and whose key either has the key of the query as a contiguous
    part or is among [close_matches]; the line is the bulleted stored name;
    the lines are in ascending order and pairwise different.  The embed
    that says nothing was found is sent exactly when there is no line, which
    is when no key has the key of the query as a part and [close_matches]
    is empty. *)
Theorem search_command_results (ctx : Context) (query : str) (w : world)
    (names close_matches : list str) :
  let fetch := GET names_endpoint [] in
  let key_of (s : str) := lower (translate_name s false) in
  let keys := first_occurrences (map key_of names) in
  let part_of (q key : str) := exists before after, key = before ++ q ++ after in
  let lines := search_results query names close_matches in
  site w fetch = Returned names ->
  get_close_matches (key_of query) keys 10 0.70 = Returned close_matches ->
  (forall key, key ∈ close_matches -> key ∈ keys) ->
  calls (search_command ctx query) w
  = [ApiCall fetch;
     match lines with
     | [] => CtxSendEmbed (mkEmbed (lit "Query results") blue
                             (Some (lit "Nothing found.")))
     | _ :: _ => Paginate lines (mkEmbed (lit "Query results") blue None) 400 false
     end]
  /\ (empty_state_shown (lit "Nothing found.") (calls (search_command ctx query) w)
      <-> lines = [])
  /\ (lines = []
      <-> (forall key, key ∈ keys -> ~ part_of (key_of query) key)
          /\ close_matches = [])
  /\ StronglySorted str_le lines
  /\ NoDup lines
  /\ (forall line,
        line ∈ lines
        <-> exists name i,
              line = bullet name
              /\ names !! i = Some name
              /\ (forall j other,
                    names !! j = Some other -> key_of other = key_of name -> j <= i)
              /\ (part_of (key_of query) (key_of name)
                  \/ key_of name ∈ close_matches)).
Proof.
  intros fetch key_of keys part_of lines Hfetch Hclose Hsound.
  destruct (search_results_shown ctx query w names close_matches Hfetch Hclose Hsound)
    as (Hcalls & Hempty & Hnil & Hsorted & Hnodup).
  split_and!; [done|done| |done|done|].
  - fold lines in Hnil. rewrite Hnil. split; intros [Hnone ?]; (split; [|done]).
    + intros key Hkey Hpart.
      assert (contains (normalize query) key = true) as Hc by (by apply contains_spec).
      by rewrite (Hnone key Hkey) in Hc.
    + intros key Hkey. destruct (contains (normalize query) key) eqn:Hc; [|done].
      exfalso. apply (Hnone key Hkey). by apply contains_spec.
  - intros line. unfold lines. rewrite elem_of_search_results. split.
    + intros (key & name & -> & Hname & Hmatch).
      apply original_name_position in Hname as [<- (i & Hi & Hlast)].
      exists name, i. split_and!; [done|done|done|].
      destruct Hmatch as [Hc|Hc]; [left|by right]. by apply contains_spec.
    + intros (name & i & -> & Hi & Hlast & Hmatch).
      exists (normalize name), name. split_and!; [done| |].
      * apply original_name_position. split; [done|]. by exists i.
      * destruct Hmatch as [Hp|Hp]; [left|by right]. by apply contains_spec.
Qed.

(** C9. [otname search] shows, of the stored names that share a normalized
    key, at most the last one in the order of the site's answer: a name on a
    line that is shown stands in the answer at a position after which no
    name has the same normalized key. *)
Theorem search_command_shows_last_of_key (ctx : Context) (query : str) (w : world)
    (names lines : list str) (name : str) :
  site w (GET names_endpoint []) = Returned names ->
  lines ∈ shown_lines (calls (search_command ctx query) w) ->
  bullet name ∈ lines ->
  exists i,
    names !! i = Some name
    /\ forall j other,
         names !! j = Some other -> normalize other = normalize name -> j <= i.
Proof.
  intros Hfetch Hshown Hline.
  assert (exists key, original_name names key = Some name) as [key Hkey].
  { destruct (get_close_matches (normalize query) (normalized_keys names) 10 0.70)
      as [close_matches|e] eqn:Hclose.
    - pose proof (search_command_unfold ctx query w names close_matches Hfetch Hclose)
        as Hrun. simpl in Hrun.
      destruct (List.find _ _) in Hrun.
      { rewrite (calls_emit _ _ _ _ Hrun) in Hshown. by apply elem_of_nil in Hshown. }
      rewrite (calls_emit _ _ _ _ Hrun) in Hshown. simpl in Hshown.
      destruct (sorted _) as [|line0 lines0] eqn:Hsorted in Hshown;
        [by apply elem_of_nil in Hshown|].
      apply list_elem_of_singleton in Hshown as ->.
      rewrite <- Hsorted, elem_of_sorted in Hline.
      apply list_elem_of_omap in Hline as (key & _ & Hkey).
      exists key. destruct (original_name names key) as [original|]; [|done].
      simpl in Hkey. f_equal. apply bullet_inj. congruence.
    - exfalso.
      assert (search_command ctx query w
              = (Raised e, emit [ApiCall (GET names_endpoint [])] w)) as Hrun.
      { unfold search_command. rewrite bind_api_client, Hfetch.
        rewrite dict_keys_comprehension. fold (normalized_keys names).
        by rewrite bind_lift, Hclose. }
      rewrite (calls_emit _ _ _ _ Hrun) in Hshown. by apply elem_of_nil in Hshown. }
  pose proof (original_name_key _ _ _ Hkey) as [Hnorm _].
  apply last_filter_position in Hkey as (i & Hi & _ & Hlast).
  exists i. split; [done|].
  intros j other Hj Hother. apply (Hlast j other Hj).
  apply bool_decide_eq_true_2. congruence.
Qed.


(** ** More about the daily task *)

(** X1. Whatever the site, the channel cache and the chat platform answer,
    a run of the task makes exactly one request to the site, the fetch of
    three random names: the task never changes the pool of names. *)
Theorem update_names_only_fetches (w : world) :
  requests (calls update_names w)
  = [GET names_endpoint [(lit "random_items", PInt 3)]].
Proof.
  unfold calls. run_coroutine update_names.
  destruct (site w _) as [names|e].
  2: { destruct e; cbn; by rewrite <- ?app_assoc, drop_app_length. }
  destruct names as [|name_0 [|name_1 [|name_2 [|name_3 names]]]];
    try (cbn; by rewrite <- ?app_assoc, drop_app_length).
  outside_cases w; by rewrite <- ?app_assoc, drop_app_length.
Qed.

(** X2. When the site returns three names, the three channels are cached
    and the chat platform accepts the three edits, the run returns: it has
    fetched, edited the channels in the order of the slots and recorded the
    new names at DEBUG, and the cache holds the new names. *)
Theorem update_names_succeeds (w : world) (name_0 name_1 name_2 : str) :
  let fetch := GET names_endpoint [(lit "random_items", PInt 3)] in
  let edit_0 := ChannelEdit off_topic_0 (lit "ot0-" ++ name_0) in
  let edit_1 := ChannelEdit off_topic_1 (lit "ot1-" ++ name_1) in
  let edit_2 := ChannelEdit off_topic_2 (lit "ot2-" ++ name_2) in
  site w fetch = Returned [name_0; name_1; name_2] ->
  is_Some (channels w !! off_topic_0) ->
  is_Some (channels w !! off_topic_1) ->
  is_Some (channels w !! off_topic_2) ->
  gateway w edit_0 = None -> gateway w edit_1 = None -> gateway w edit_2 = None ->
  update_names w
  = (Returned tt,
     {| site := site w;
        gateway := gateway w;
        channels :=
          <[off_topic_2 := lit "ot2-" ++ name_2]>
            (<[off_topic_1 := lit "ot1-" ++ name_1]>
               (<[off_topic_0 := lit "ot0-" ++ name_0]> (channels w)));
        journal :=
          journal w
          ++ [ApiCall fetch; edit_0; edit_1; edit_2;
              LogRecord DEBUG (lit "Updated off-topic channel names to"
                               ++ lit " " ++ name_0 ++ lit ", " ++ name_1
                               ++ lit " and " ++ name_2)] |}).
Proof.
  intros fetch edit_0 edit_1 edit_2 Hfetch [c0 H0] [c1 H1] [c2 H2] Hg0 Hg1 Hg2.
  run_coroutine update_names. fold fetch. rewrite Hfetch. cbn.
  rewrite H0, H1, H2. cbn. fold edit_0. rewrite Hg0. cbn.
  fold edit_1. rewrite Hg1. cbn. fold edit_2. rewrite Hg2. cbn.
  unfold rename_channel, emit. cbn. by rewrite <- !app_assoc.
Qed.

(** X3. In every run that fetched three names the edits attempted are an
    initial part of the three slot edits, in the order of the slots, and the
    channel cache afterwards is the cache before with the edits the chat
    platform accepted applied in that order: a later slot is never edited
    before an earlier one, and nothing else changes in the cache. *)
Theorem update_names_edits_in_order (w : world) (name_0 name_1 name_2 : str) :
  let attempted := edits (calls update_names w) in
  let accepted (e : Z * str) :=
    match gateway w (ChannelEdit (fst e) (snd e)) with
    | None => true
    | Some _ => false
    end in
  site w (GET names_endpoint [(lit "random_items", PInt 3)])
  = Returned [name_0; name_1; name_2] ->
  attempted `prefix_of` [(off_topic_0, lit "ot0-" ++ name_0);
                         (off_topic_1, lit "ot1-" ++ name_1);
                         (off_topic_2, lit "ot2-" ++ name_2)]
  /\ channels (snd (update_names w))
     = fold_left (fun cache e => <[fst e := snd e]> cache)
         (List.filter accepted attempted) (channels w).
Proof.
  intros attempted accepted Hfetch. unfold attempted, accepted, calls.
  run_coroutine update_names. rewrite Hfetch. cbn.
  destruct (channels w !! off_topic_0); cbn.
  2: { rewrite drop_app_length. cbn. split; [apply prefix_nil|done]. }
  destruct (gateway w (ChannelEdit off_topic_0 (lit "ot0-" ++ name_0))) eqn:Hg0; cbn.
  { rewrite <- ?app_assoc, drop_app_length. cbn. rewrite Hg0. cbn.
    split; [by eexists|done]. }
  destruct (channels w !! off_topic_1); cbn.
  2: { rewrite <- ?app_assoc, drop_app_length. cbn. rewrite Hg0. cbn.
       split; [by eexists|done]. }
  destruct (gateway w (ChannelEdit off_topic_1 (lit "ot1-" ++ name_1))) eqn:Hg1; cbn.
  { rewrite <- ?app_assoc, drop_app_length. cbn. rewrite Hg0, Hg1. cbn.
    split; [by eexists|done]. }
  destruct (channels w !! off_topic_2); cbn.
  2: { rewrite <- ?app_assoc, drop_app_length. cbn. rewrite Hg0, Hg1. cbn.
       split; [by eexists|done]. }
  destruct (gateway w (ChannelEdit off_topic_2 (lit "ot2-" ++ name_2))) eqn:Hg2; cbn.
  { rewrite <- ?app_assoc, drop_app_length. cbn. rewrite Hg0, Hg1, Hg2. cbn.
    split; [by eexists|done]. }
  rewrite <- ?app_assoc, drop_app_length. cbn. rewrite Hg0, Hg1, Hg2. cbn.
  split; [by exists []|done].
Qed.

(** X4. The renaming is not all or nothing: when the second channel is not
    in the cache while the first is and its edit is accepted, the run raises
    [AttributeError] with the first channel renamed and the other two not
    attempted. *)
Theorem update_names_missing_channel (w : world) (name_0 name_1 name_2 : str) :
  let fetch := GET names_endpoint [(lit "random_items", PInt 3)] in
  let edit_0 := ChannelEdit off_topic_0 (lit "ot0-" ++ name_0) in
  site w fetch = Returned [name_0; name_1; name_2] ->
  is_Some (channels w !! off_topic_0) ->
  channels w !! off_topic_1 = None ->
  gateway w edit_0 = None ->
  update_names w
  = (Raised AttributeError,
     rename_channel off_topic_0 (lit "ot0-" ++ name_0) (emit [ApiCall fetch; edit_0] w)).
Proof.
  intros fetch edit_0 Hfetch [c0 H0] H1 Hg0.
  run_coroutine update_names. fold fetch. rewrite Hfetch. cbn.
  rewrite H0, H1. cbn. fold edit_0. rewrite Hg0. cbn.
  destruct (channels w !! off_topic_2); cbn;
    unfold rename_channel, emit; cbn; by rewrite <- !app_assoc.
Qed.

(** X5. A failure of the fetch that is not a response-code error is not
    handled by the task: it propagates as it is, without the error record
    in the log and without any edit. *)
Theorem update_names_other_fetch_error (w : world) (e : exn) :
  let fetch := GET names_endpoint [(lit "random_items", PInt 3)] in
  site w fetch = Raised e ->
  class_of e <> ResponseCodeErrorT ->
  update_names w = (Raised e, emit [ApiCall fetch] w).
Proof.
  intros fetch Hfetch Hclass. run_coroutine update_names. fold fetch.
  rewrite Hfetch. by destruct e.
Qed.

(** X6. [__init__] starts the loop and makes it retry on response-code
    errors; for an exception of any other type the loop decides as it did
    before. *)
Theorem init_registers_response_code_error_only (update_names_loop : Loop) (e : exn) :
  running (__init__ update_names_loop) = true
  /\ (class_of e = ResponseCodeErrorT ->
      retries (__init__ update_names_loop) e = reconnect update_names_loop)
  /\ (class_of e <> ResponseCodeErrorT ->
      retries (__init__ update_names_loop) e = retries update_names_loop e).
Proof.
  unfold retries, __init__. cbn. split_and!; [done| |].
  - intros ->. rewrite bool_decide_eq_true_2; [apply andb_true_r|].
    apply elem_of_app. right. left.
  - intros Hne. f_equal. apply bool_decide_ext. rewrite elem_of_app.
    split; [|by left]. intros [?|Hin]; [done|].
    by apply list_elem_of_singleton in Hin.
Qed.


(** ** More about the commands *)

(** [otname add] in every world. *)
Lemma add_command_cases (ctx : Context) (name : str) (w : world) :
  let fetch := GET names_endpoint [] in
  let submit := POST names_endpoint [(lit "name", PStr name)] in
  let confirmation :=
    CtxSend (lit ":ok_hand: Added `" ++ name ++ lit "` to the names list.") in
  add_command ctx name w
  = match site w fetch with
    | Raised e => (Raised e, emit [ApiCall fetch] w)
    | Returned existing_names =>
        match get_close_matches name existing_names 1 0.8 with
        | Raised e => (Raised e, emit [ApiCall fetch] w)
        | Returned (match_ :: _) =>
            (answer w (CtxSend (too_similar name match_)),
             emit [ApiCall fetch;
                   LogRecord INFO (author ctx ++ lit " tried to add channel name '" ++ name
                                   ++ lit "' but it was too similar to '" ++ match_
                                   ++ lit "'");
                   CtxSend (too_similar name match_)] w)
        | Returned [] =>
            match site w submit with
            | Raised e => (Raised e, emit [ApiCall fetch; ApiCall submit] w)
            | Returned _ =>
                (answer w confirmation,
                 emit [ApiCall fetch; ApiCall submit;
                       LogRecord INFO (author ctx
                                       ++ lit " added the off-topic channel name '"
                                       ++ name ++ lit "'");
                       confirmation] w)
            end
        end
    end.
Proof.
  intros fetch submit confirmation. unfold add_command.
  rewrite bind_api_client. fold fetch.
  destruct (site w fetch) as [existing_names|e]; [|done].
  rewrite bind_lift.
  destruct (get_close_matches name existing_names 1 0.8) as [[|match_ rest]|e];
    [| |done].
  - rewrite _add_name_run. cbn. fold submit.
    destruct (site w submit); by rewrite emit_emit.
  - rewrite bind_log. unfold send. rewrite perform_run. cbn.
    by rewrite !emit_emit.
Qed.

(** [otname list] in every world. *)
Lemma list_command_cases (ctx : Context) (w : world) :
  exists o shown,
    list_command ctx w = (o, emit (ApiCall (GET names_endpoint []) :: shown) w)
    /\ requests shown = [] /\ edits shown = [].
Proof.
  destruct (site w (GET names_endpoint [])) as [names|e] eqn:Hfetch.
  - pose proof (list_command_run ctx w names Hfetch) as Hrun. cbv zeta in Hrun.
    eexists _, [_]. split; [exact Hrun|]. by destruct names.
  - exists (Raised e), []. split; [|done].
    unfold list_command. by rewrite bind_api_client, Hfetch.
Qed.

(** [otname search] in every world. *)
Lemma search_command_cases (ctx : Context) (query : str) (w : world) :
  exists o shown,
    search_command ctx query w = (o, emit (ApiCall (GET names_endpoint []) :: shown) w)
    /\ requests shown = [] /\ edits shown = [].
Proof.
  destruct (site w (GET names_endpoint [])) as [names|e] eqn:Hfetch.
  2: { exists (Raised e), []. split; [|done].
       unfold search_command. by rewrite bind_api_client, Hfetch. }
  destruct (get_close_matches (normalize query) (normalized_keys names) 10 0.70)
    as [close_matches|e] eqn:Hclose.
  2: { exists (Raised e), []. split; [|done].
       unfold search_command. rewrite bind_api_client, Hfetch.
       rewrite dict_keys_comprehension. fold (normalized_keys names).
       by rewrite bind_lift, Hclose. }
  pose proof (search_command_unfold ctx query w names close_matches Hfetch Hclose)
    as Hrun. cbv zeta in Hrun.
  destruct (List.find _ _) in Hrun.
  - eexists _, []. split; [exact Hrun|done].
  - eexists _, [_]. split; [exact Hrun|]. by destruct (sorted _).
Qed.

(** [otname delete] when the site returns. *)
Lemma delete_command_run (ctx : Context) (name : str) (w : world)
    (payload : list str) :
  site w (DELETE (lit "bot/off-topic-channel-names/" ++ name)) = Returned payload ->
  exists o,
    delete_command ctx name w
    = (o, emit [ApiCall (DELETE (lit "bot/off-topic-channel-names/" ++ name));
                LogRecord INFO (author ctx ++ lit " deleted the off-topic channel name '"
                                ++ name ++ lit "'");
                CtxSend (lit ":ok_hand: Removed `" ++ name
                         ++ lit "` from the names list.")] w).
Proof.
  intros Hsite. eexists. unfold delete_command.
  rewrite bind_api_client, Hsite, bind_log. unfold send. rewrite perform_run. cbn.
  by rewrite !emit_emit.
Qed.

(** X7. The commands leave the channels alone: in every world, whatever
    the site, the similarity comparison and the chat platform answer, none
    of [add], [forceadd], [delete], [list] and [search] attempts a channel
    edit, and the channel cache is the same afterwards. *)
Theorem commands_keep_channels (ctx : Context) (arg : str) (w : world) :
  (edits (calls (add_command ctx arg) w) = []
   /\ channels (snd (add_command ctx arg w)) = channels w)
  /\ (edits (calls (force_add_command ctx arg) w) = []
      /\ channels (snd (force_add_command ctx arg w)) = channels w)
  /\ (edits (calls (delete_command ctx arg) w) = []
      /\ channels (snd (delete_command ctx arg w)) = channels w)
  /\ (edits (calls (list_command ctx) w) = []
      /\ channels (snd (list_command ctx w)) = channels w)
  /\ (edits (calls (search_command ctx arg) w) = []
      /\ channels (snd (search_command ctx arg w)) = channels w).
Proof.
  assert (forall (m : M unit) o evs,
            m w = (o, emit evs w) -> edits evs = [] ->
            edits (calls m w) = [] /\ channels (snd (m w)) = channels w) as Hquiet.
  { intros m o evs Hrun Hevs. rewrite (calls_emit _ _ _ _ Hrun).
    split; [done|]. by rewrite Hrun. }
  refine (conj _ (conj _ (conj _ (conj _ _)))).
  - pose proof (add_command_cases ctx arg w) as Hrun. cbv zeta in Hrun.
    destruct (site w _) as [existing_names|e] in Hrun; [|by eapply Hquiet].
    destruct (get_close_matches _ _ _ _) as [[|match_ rest]|e] in Hrun;
      [|by eapply Hquiet..].
    destruct (site w _) in Hrun; by eapply Hquiet.
  - unfold force_add_command.
    pose proof (_add_name_run ctx arg w) as Hrun. cbv zeta in Hrun.
    destruct (site w _) in Hrun; by eapply Hquiet.
  - destruct (site w (DELETE (lit "bot/off-topic-channel-names/" ++ arg)))
      as [payload|e] eqn:Hsite.
    + destruct (delete_command_run ctx arg w payload Hsite)
        as [o Hrun]. eapply Hquiet; [exact Hrun|reflexivity].
    + eapply Hquiet;
        [unfold delete_command; by rewrite bind_api_client, Hsite|done].
  - destruct (list_command_cases ctx w) as (o & shown & Hrun & _ & Hedits).
    by eapply Hquiet.
  - destruct (search_command_cases ctx arg w) as (o & shown & Hrun & _ & Hedits).
    by eapply Hquiet.
Qed.

(** X8. [otname list] and [otname search] only read: in every world each
    makes exactly one request to the site, the fetch of the names. *)
Theorem list_and_search_only_fetch (ctx : Context) (query : str) (w : world) :
  requests (calls (list_command ctx) w) = [GET names_endpoint []]
  /\ requests (calls (search_command ctx query) w) = [GET names_endpoint []].
Proof.
  split.
  - destruct (list_command_cases ctx w) as (o & shown & Hrun & Hreq & _).
    rewrite (calls_emit _ _ _ _ Hrun). unfold requests in *. cbn. by rewrite Hreq.
  - destruct (search_command_cases ctx query w) as (o & shown & Hrun & Hreq & _).
    rewrite (calls_emit _ _ _ _ Hrun). unfold requests in *. cbn. by rewrite Hreq.
Qed.

(** X9. [otname add] posts the name only after the similarity comparison
    came back empty: in every world the post is among its requests exactly
    when the fetch returned the stored names and
    [get_close_matches(name, existing_names, n=1, cutoff=0.8)] returned no
    match on them.  A fetch or a comparison that raises posts nothing. *)
Theorem add_command_posts_only_after_check (ctx : Context) (name : str) (w : world) :
  POST names_endpoint [(lit "name", PStr name)]
    ∈ requests (calls (add_command ctx name) w)
  <-> exists existing_names,
        site w (GET names_endpoint []) = Returned existing_names
        /\ get_close_matches name existing_names 1 0.8 = Returned [].
Proof.
  pose proof (add_command_cases ctx name w) as Hrun. cbv zeta in Hrun.
  destruct (site w (GET names_endpoint [])) as [existing_names|e].
  2: { rewrite (calls_emit _ _ _ _ Hrun). cbn. split.
       - intros [?|?%elem_of_nil]%elem_of_cons; done.
       - intros (? & ? & _); discriminate. }
  destruct (get_close_matches name existing_names 1 0.8) as [[|match_ rest]|e]
    eqn:Hclose.
  - split; [by exists existing_names|]. intros _.
    destruct (site w _) in Hrun; rewrite (calls_emit _ _ _ _ Hrun); cbn;
      right; left.
  - rewrite (calls_emit _ _ _ _ Hrun). cbn. split.
    + intros [?|?%elem_of_nil]%elem_of_cons; done.
    + intros (existing' & [= <-] & ?); congruence.
  - rewrite (calls_emit _ _ _ _ Hrun). cbn. split.
    + intros [?|?%elem_of_nil]%elem_of_cons; done.
    + intros (existing' & [= <-] & ?); congruence.
Qed.


(** ** More about the search command *)

(** A line shown by [otname search] is the bulleted original of a key that
    contains the query or that the similarity comparison returned. *)
Lemma search_command_shown_origin (ctx : Context) (query : str) (w : world)
    (names lines : list str) (line : str) :
  site w (GET names_endpoint []) = Returned names ->
  lines ∈ shown_lines (calls (search_command ctx query) w) ->
  line ∈ lines ->
  exists key name close_matches,
    line = bullet name
    /\ original_name names key = Some name
    /\ get_close_matches (normalize query) (normalized_keys names) 10 0.70
       = Returned close_matches
    /\ (contains (normalize query) key = true \/ key ∈ close_matches).
Proof.
  intros Hfetch Hshown Hline.
  destruct (get_close_matches (normalize query) (normalized_keys names) 10 0.70)
    as [close_matches|e] eqn:Hclose.
  2: { exfalso.
       assert (search_command ctx query w
               = (Raised e, emit [ApiCall (GET names_endpoint [])] w)) as Hrun.
       { unfold search_command. rewrite bind_api_client, Hfetch.
         rewrite dict_keys_comprehension. fold (normalized_keys names).
         by rewrite bind_lift, Hclose. }
       rewrite (calls_emit _ _ _ _ Hrun) in Hshown. by apply elem_of_nil in Hshown. }
  pose proof (search_command_unfold ctx query w names close_matches Hfetch Hclose)
    as Hrun. cbv zeta in Hrun.
  destruct (List.find _ _) in Hrun.
  { rewrite (calls_emit _ _ _ _ Hrun) in Hshown. by apply elem_of_nil in Hshown. }
  rewrite (calls_emit _ _ _ _ Hrun) in Hshown. cbn in Hshown.
  destruct (sorted _) as [|line0 lines0] eqn:Hsorted in Hshown;
    [by apply elem_of_nil in Hshown|].
  apply list_elem_of_singleton in Hshown as ->.
  rewrite <- Hsorted, elem_of_sorted in Hline.
  apply list_elem_of_omap in Hline as (key & Hkey & Horig).
  destruct (original_name names key) as [name|] eqn:Hname; [|done].
  exists key, name, close_matches. split_and!; [by injection Horig|done|done|].
  apply elem_of_elements, elem_of_union in Hkey as [Hkey|Hkey].
  - left. apply elem_of_list_to_set, list_elem_of_In, List.filter_In in Hkey.
    tauto.
  - right. by apply elem_of_list_to_set in Hkey.
Qed.

(** The original of a matched key is on the lines [otname search] shows. *)
Lemma search_command_shows (ctx : Context) (query : str) (w : world)
    (names close_matches : list str) (key name : str) :
  site w (GET names_endpoint []) = Returned names ->
  get_close_matches (normalize query) (normalized_keys names) 10 0.70
  = Returned close_matches ->
  (forall key, key ∈ close_matches -> key ∈ normalized_keys names) ->
  original_name names key = Some name ->
  contains (normalize query) key = true \/ key ∈ close_matches ->
  exists lines,
    lines ∈ shown_lines (calls (search_command ctx query) w) /\ bullet name ∈ lines.
Proof.
  intros Hfetch Hclose Hsound Hname Hmatch.
  pose proof (search_command_unfold ctx query w names close_matches Hfetch Hclose)
    as Hrun. cbv zeta in Hrun.
  set (matched := elements _) in Hrun.
  assert (forall k, k ∈ matched -> k ∈ normalized_keys names) as Hkeys.
  { intros k [Hk|Hk]%elem_of_elements%elem_of_union.
    - apply elem_of_list_to_set, list_elem_of_In, List.filter_In in Hk as [Hk _].
      by apply list_elem_of_In.
    - apply elem_of_list_to_set in Hk. by apply Hsound. }
  assert (key ∈ matched) as Hkey.
  { apply elem_of_elements, elem_of_union. destruct Hmatch as [Hc|Hc].
    - left. apply elem_of_list_to_set, list_elem_of_In, List.filter_In.
      split; [|done]. apply list_elem_of_In, original_name_is_Some. by eexists.
    - right. by apply elem_of_list_to_set. }
  rewrite find_nowhere in Hrun.
  2: { intros k Hk. apply bool_decide_eq_false_2.
       assert (is_Some (original_name names k)) as [n ->]; [|done].
       by apply original_name_is_Some, Hkeys. }
  assert (bullet name
          ∈ sorted (omap (fun key => bullet <$> original_name names key) matched))
    as Hline.
  { apply elem_of_sorted, list_elem_of_omap. exists key. split; [done|].
    by rewrite Hname. }
  destruct (sorted _) as [|line lines] eqn:Hsorted;
    [by apply elem_of_nil in Hline|].
  exists (line :: lines). split; [|done].
  rewrite (calls_emit _ _ _ _ Hrun). cbn. left.
Qed.

(** X10. [otname search] shows a stored name exactly when it is the last
    name of its normalized key in the site's answer and the key contains
    the normalized query or is among the similarity matches (which are
    keys). *)
Theorem search_command_shows_iff (ctx : Context) (query : str) (w : world)
    (names close_matches : list str) (name : str) :
  site w (GET names_endpoint []) = Returned names ->
  get_close_matches (normalize query) (normalized_keys names) 10 0.70
  = Returned close_matches ->
  (forall key, key ∈ close_matches -> key ∈ normalized_keys names) ->
  (exists lines,
     lines ∈ shown_lines (calls (search_command ctx query) w) /\ bullet name ∈ lines)
  <-> original_name names (normalize name) = Some name
      /\ (contains (normalize query) (normalize name) = true
          \/ normalize name ∈ close_matches).
Proof.
  intros Hfetch Hclose Hsound. split.
  - intros (lines & Hshown & Hline).
    destruct (search_command_shown_origin ctx query w names lines (bullet name)
                Hfetch Hshown Hline)
      as (key & name' & close' & Heq & Hname & Hclose' & Hmatch).
    apply bullet_inj in Heq as <-.
    pose proof (original_name_key _ _ _ Hname) as [<- _].
    rewrite Hclose in Hclose'. injection Hclose' as <-. done.
  - intros [Hname Hmatch]. by eapply search_command_shows.
Qed.

(** X11. Searching for a stored name, typed as it is stored, finds it: the
    lines shown include the name stored last under its normalized key. *)
Theorem search_command_finds_stored_name (ctx : Context) (w : world)
    (names close_matches : list str) (name : str) :
  site w (GET names_endpoint []) = Returned names ->
  get_close_matches (normalize name) (normalized_keys names) 10 0.70
  = Returned close_matches ->
  (forall key, key ∈ close_matches -> key ∈ normalized_keys names) ->
  name ∈ names ->
  exists original lines,
    original_name names (normalize name) = Some original
    /\ lines ∈ shown_lines (calls (search_command ctx name) w)
    /\ bullet original ∈ lines.
Proof.
  intros Hfetch Hclose Hsound Hin.
  assert (is_Some (original_name names (normalize name))) as [original Horig].
  { apply original_name_is_Some, elem_of_first_occurrences, list_elem_of_In, in_map.
    by apply list_elem_of_In. }
  exists original.
  destruct (search_command_shows ctx name w names close_matches (normalize name)
              original Hfetch Hclose Hsound Horig) as (lines & Hshown & Hline).
  - left. apply contains_spec. exists [], []. by rewrite app_nil_r.
  - by exists lines.
Qed.

(** X12. [otname search] shows only what [otname list] shows: for the same
    answer of the site, every line of the search is a line of the list. *)
Theorem search_lines_among_list_lines (ctx : Context) (query : str) (w : world)
    (names lines : list str) (line : str) :
  site w (GET names_endpoint []) = Returned names ->
  lines ∈ shown_lines (calls (search_command ctx query) w) ->
  line ∈ lines ->
  exists listed,
    listed ∈ shown_lines (calls (list_command ctx) w) /\ line ∈ listed.
Proof.
  intros Hfetch Hshown Hline.
  destruct (search_command_shown_origin ctx query w names lines line
              Hfetch Hshown Hline) as (key & name & _ & -> & Hname & _).
  apply original_name_key in Hname as [_ Hin].
  pose proof (list_command_run ctx w names Hfetch) as Hrun. cbv zeta in Hrun.
  rewrite (calls_emit _ _ _ _ Hrun).
  destruct names as [|name0 names']; [by apply elem_of_nil in Hin|].
  eexists. split; [left|].
  apply elem_of_sorted, list_elem_of_In, in_map. by apply list_elem_of_In.
Qed.

End OffTopicNames.

(** ** The contract of [difflib.get_close_matches]

    What the search command relies on: the matches are picked from the
    possibilities.  Besides, there are at most [n] of them, and there is one
    as soon as a possibility scores at least the cutoff. *)

Lemma difflib_scored_sound (word : str) (cutoff : float) (possibilities : list str)
    (s : float) (x : str) :
  (s, x) ∈ flat_map (difflib.score word cutoff) possibilities -> x ∈ possibilities.
Proof.
  intros H. apply list_elem_of_In, in_flat_map in H as (y & Hy & H).
  unfold difflib.score in H. destruct (_ && _); simpl in H; [|done].
  destruct H as [[= _ <-]|[]]. by apply list_elem_of_In.
Qed.

Lemma difflib_get_close_matches_sound (word : str) (possibilities : list str) (n : Z)
    (cutoff : float) (close_matches : list str) :
  difflib.get_close_matches word possibilities n cutoff = Returned close_matches ->
  forall x, x ∈ close_matches -> x ∈ possibilities.
Proof.
  unfold difflib.get_close_matches, difflib.nlargest.
  destruct (negb _); [done|]. destruct (negb _); [done|].
  intros [= <-] x Hx.
  apply list_elem_of_In, in_map_iff in Hx as ([s y] & Hy & Hx). simpl in Hy. subst y.
  apply list_elem_of_In, elem_of_take in Hx as (i & Hx & _).
  apply list_elem_of_lookup_2 in Hx.
  rewrite merge_sort_Permutation in Hx.
  by eapply difflib_scored_sound.
Qed.

Lemma difflib_get_close_matches_length (word : str) (possibilities : list str) (n : Z)
    (cutoff : float) (close_matches : list str) :
  difflib.get_close_matches word possibilities n cutoff = Returned close_matches ->
  (0 < n)%Z /\ (Z.of_nat (length close_matches) <= n)%Z.
Proof.
  unfold difflib.get_close_matches, difflib.nlargest.
  destruct (0 <? n)%Z eqn:Hn; [|done]. simpl. destruct (negb _); [done|].
  intros [= <-]. apply Z.ltb_lt in Hn. split; [done|].
  rewrite length_map, length_take. lia.
Qed.

Lemma difflib_get_close_matches_nonempty (word : str) (possibilities : list str) (n : Z)
    (cutoff : float) (close_matches : list str) :
  difflib.get_close_matches word possibilities n cutoff = Returned close_matches ->
  close_matches <> []
  <-> exists x, x ∈ possibilities /\ difflib.score word cutoff x <> [].
Proof.
  intros H. pose proof (difflib_get_close_matches_length _ _ _ _ _ H) as [Hn _].
  revert H. unfold difflib.get_close_matches, difflib.nlargest.
  destruct (negb _); [done|]. destruct (negb _); [done|].
  intros [= <-].
  set (result := flat_map (difflib.score word cutoff) possibilities).
  assert (result <> [] <-> exists x, x ∈ possibilities /\ difflib.score word cutoff x <> [])
    as <-.
  { unfold result. split.
    - intros Hne. destruct (flat_map _ _) as [|p l] eqn:E; [done|].
      assert (In p (flat_map (difflib.score word cutoff) possibilities)) as Hp
        by (rewrite E; left; done).
      apply in_flat_map in Hp as (x & Hx & Hp). exists x.
      split; [by apply list_elem_of_In|]. by intros Hnil; rewrite Hnil in Hp.
    - intros (x & Hx & Hs) Hnil. apply Hs.
      destruct (difflib.score word cutoff x) as [|p l] eqn:E; [done|].
      assert (In p (flat_map (difflib.score word cutoff) possibilities)) as Hp.
      { apply in_flat_map. exists x. split; [by apply list_elem_of_In|].
        rewrite E. by left. }
      by rewrite Hnil in Hp. }
  assert (length (merge_sort difflib.scored_ge result) = length result) as Hlen
    by (by rewrite merge_sort_Permutation).
  split.
  - intros Hne Hres. apply Hne.
    assert (merge_sort difflib.scored_ge result = []) as ->; [|by rewrite take_nil].
    apply Permutation_nil. by rewrite merge_sort_Permutation, Hres.
  - intros Hne Hnil. apply (f_equal length) in Hnil.
    rewrite length_map, length_take, Hlen in Hnil. simpl in Hnil.
    destruct result; [done|]. simpl in Hnil. lia.
Qed.

(** ** The loops of [SequenceMatcher] end

    [get_matching_blocks] runs its [while queue:] loop for at most
    [2 * len(a) + 1] rounds: a block found by [find_longest_match] lies
    inside the region searched, so the regions it leaves are smaller.  The
    rounds given to [difflib.matching_loop] are therefore enough: with more
    of them the result is the same. *)

Lemma scan_row_inside (alo ahi i blo bhi : Z) (j2len : gmap Z Z) (js : list Z)
    (newj2len : gmap Z Z) (best : Z * Z * Z) :
  (alo <= i < ahi)%Z ->
  lengths_below (i - alo) j2len ->
  lengths_below (i - alo + 1) newj2len ->
  block_inside alo ahi best ->
  lengths_below (i - alo + 1) (fst (difflib.scan_row i blo bhi j2len js newj2len best))
  /\ block_inside alo ahi (snd (difflib.scan_row i blo bhi j2len js newj2len best)).
Proof.
  intros Hi Hold. revert newj2len best.
  induction js as [|j js IH]; intros newj2len best Hnew Hbest; simpl; [done|].
  destruct (j <? blo)%Z; [by apply IH|].
  destruct (bhi <=? j)%Z; [done|].
  destruct best as [[besti bestj] bestsize].
  set (k := (default 0 (j2len !! (j - 1)) + 1)%Z).
  assert (1 <= k <= i - alo + 1)%Z as Hk.
  { unfold k. destruct (j2len !! (j - 1)%Z) as [v|] eqn:Hv; simpl.
    - apply Hold in Hv. lia.
    - lia. }
  apply IH.
  - intros j' v. rewrite lookup_insert. destruct (decide (j = j')) as [->|].
    + intros [= <-]. done.
    + apply Hnew.
  - destruct (bestsize <? k)%Z; [|done].
    unfold block_inside. simpl. lia.
Qed.

Lemma scan_rows_inside (a b : str) (alo ahi blo bhi : Z) (n : nat) (m : Z)
    (st : gmap Z Z * (Z * Z * Z)) :
  (alo <= m)%Z -> (m + Z.of_nat n <= ahi)%Z ->
  lengths_below (m - alo) (fst st) ->
  block_inside alo ahi (snd st) ->
  block_inside alo ahi
    (snd (fold_left
            (fun (st : gmap Z Z * (Z * Z * Z)) (i : Z) =>
               difflib.scan_row i blo bhi (fst st)
                 (match difflib.item a i with Some x => difflib.b2j b x | None => [] end)
                 ∅ (snd st))
            (seqZ m (Z.of_nat n)) st)).
Proof.
  revert m st. induction n as [|n IH]; intros m st Hm Hn Hlen Hbest.
  - by rewrite seqZ_nil.
  - rewrite seqZ_cons by lia. simpl.
    replace (Z.pred (Z.of_nat (S n))) with (Z.of_nat n) by lia.
    pose proof (scan_row_inside alo ahi m blo bhi (fst st)
                  (match difflib.item a m with Some x => difflib.b2j b x | None => [] end)
                  ∅ (snd st)) as [Hlen' Hbest'];
      [lia|done|by intros j v ?|done|].
    apply IH; [lia|lia| |done].
    by replace (Z.succ m - alo)%Z with (m - alo + 1)%Z by lia.
Qed.

Lemma extend_back_inside (a b : str) (p : char -> bool) (alo ahi blo : Z)
    (fuel : nat) (m : Z * Z * Z) :
  block_inside alo ahi m ->
  block_inside alo ahi (difflib.extend_back a b p alo blo fuel m).
Proof.
  revert m. induction fuel as [|fuel IH]; intros [[besti bestj] bestsize] Hm; simpl;
    [done|].
  destruct (difflib.item a (besti - 1)) as [x|]; [|done].
  destruct (difflib.item b (bestj - 1)) as [y|]; [|done].
  destruct (alo <? besti)%Z eqn:Hlo; simpl; [|done].
  destruct (_ && _); [|done].
  apply IH. apply Z.ltb_lt in Hlo. unfold block_inside in *. simpl in *. lia.
Qed.

Lemma extend_forward_inside (a b : str) (p : char -> bool) (alo ahi bhi : Z)
    (fuel : nat) (m : Z * Z * Z) :
  block_inside alo ahi m ->
  block_inside alo ahi (difflib.extend_forward a b p ahi bhi fuel m).
Proof.
  revert m. induction fuel as [|fuel IH]; intros [[besti bestj] bestsize] Hm; simpl;
    [done|].
  destruct (difflib.item a (besti + bestsize)) as [x|]; [|done].
  destruct (difflib.item b (bestj + bestsize)) as [y|]; [|done].
  destruct (besti + bestsize <? ahi)%Z eqn:Hhi; simpl; [|done].
  destruct (_ && _); [|done].
  apply IH. apply Z.ltb_lt in Hhi. unfold block_inside in *. simpl in *. lia.
Qed.

(** The two loops that extend a match stop within the rounds
    [find_longest_match] gives them: the distance to the edge of the region. *)
Lemma extend_back_enough (a b : str) (p : char -> bool) (alo blo : Z)
    (fuel extra : nat) (m : Z * Z * Z) :
  (fst (fst m) - alo <= Z.of_nat fuel)%Z ->
  difflib.extend_back a b p alo blo (fuel + extra) m
  = difflib.extend_back a b p alo blo fuel m.
Proof.
  revert m. induction fuel as [|fuel IH]; intros [[besti bestj] bestsize] Hm;
    simpl in Hm.
  - destruct extra as [|extra]; [done|]. simpl.
    destruct (difflib.item a (besti - 1)) as [x|]; [|done].
    destruct (difflib.item b (bestj - 1)) as [y|]; [|done].
    destruct (Z.ltb_spec alo besti); [lia|done].
  - simpl.
    destruct (difflib.item a (besti - 1)) as [x|]; [|done].
    destruct (difflib.item b (bestj - 1)) as [y|]; [|done].
    destruct (_ && _); [|done]. apply IH. simpl. lia.
Qed.

Lemma extend_forward_enough (a b : str) (p : char -> bool) (ahi bhi : Z)
    (fuel extra : nat) (m : Z * Z * Z) :
  (ahi - (fst (fst m) + snd m) <= Z.of_nat fuel)%Z ->
  difflib.extend_forward a b p ahi bhi (fuel + extra) m
  = difflib.extend_forward a b p ahi bhi fuel m.
Proof.
  revert m. induction fuel as [|fuel IH]; intros [[besti bestj] bestsize] Hm;
    simpl in Hm.
  - destruct extra as [|extra]; [done|]. simpl.
    destruct (difflib.item a (besti + bestsize)) as [x|]; [|done].
    destruct (difflib.item b (bestj + bestsize)) as [y|]; [|done].
    destruct (Z.ltb_spec (besti + bestsize) ahi); [lia|done].
  - simpl.
    destruct (difflib.item a (besti + bestsize)) as [x|]; [|done].
    destruct (difflib.item b (bestj + bestsize)) as [y|]; [|done].
    destruct (_ && _); [|done]. apply IH. simpl. lia.
Qed.

Lemma find_longest_match_inside (a b : str) (alo ahi blo bhi : Z) :
  (alo <= ahi)%Z ->
  block_inside alo ahi (difflib.find_longest_match a b alo ahi blo bhi).
Proof.
  intros Hle. unfold difflib.find_longest_match.
  apply extend_forward_inside, extend_back_inside, extend_forward_inside,
    extend_back_inside.
  replace (ahi - alo)%Z with (Z.of_nat (Z.to_nat (ahi - alo))) by lia.
  apply scan_rows_inside; [lia|lia|by intros j v ?|].
  unfold block_inside. simpl. lia.
Qed.

Lemma region_cost_nonneg (queue : list (Z * Z * Z * Z)) :
  Forall region_ordered queue -> (0 <= region_cost queue)%Z.
Proof.
  induction 1 as [|region queue Hr _ IH]; simpl; [done|].
  unfold region_ordered in Hr. lia.
Qed.

Lemma matching_loop_enough (a b : str) (fuel extra : nat)
    (queue : list (Z * Z * Z * Z)) (blocks : list (Z * Z * Z)) :
  Forall region_ordered queue ->
  (region_cost queue <= Z.of_nat fuel)%Z ->
  difflib.matching_loop a b (fuel + extra) queue blocks
  = difflib.matching_loop a b fuel queue blocks.
Proof.
  revert queue blocks.
  induction fuel as [|fuel IH]; intros queue blocks Hq Hcost.
  - destruct queue as [|region queue]; [by destruct extra|].
    exfalso. apply Forall_cons in Hq as [Hr Hq].
    apply region_cost_nonneg in Hq. unfold region_ordered in Hr.
    simpl in Hcost. lia.
  - destruct queue as [|[[[alo ahi] blo] bhi] queue]; [done|].
    apply Forall_cons in Hq as [Hr Hq]. unfold region_ordered in Hr.
    simpl in Hr, Hcost. simpl.
    pose proof (find_longest_match_inside a b alo ahi blo bhi Hr) as Hin.
    destruct (difflib.find_longest_match a b alo ahi blo bhi) as [[i j] k].
    unfold block_inside in Hin. simpl in Hin.
    destruct (Z.eqb_spec k 0) as [->|Hk]; [apply IH; [done|lia]|].
    apply IH.
    + destruct (_ && _), (_ && _); repeat constructor; try done;
        unfold region_ordered; simpl; lia.
    + destruct (alo <? i)%Z, (blo <? j)%Z, (i + k <? ahi)%Z, (j + k <? bhi)%Z;
        simpl; lia.
Qed.

(** The rounds [get_matching_blocks] is given empty its queue. *)
Lemma get_matching_blocks_rounds (a b : str) (extra : nat) :
  let la := Z.of_nat (length a) in
  let lb := Z.of_nat (length b) in
  difflib.matching_loop a b (S (2 * length a) + extra) [(0%Z, la, 0%Z, lb)] []
  = difflib.matching_loop a b (S (2 * length a)) [(0%Z, la, 0%Z, lb)] [].
Proof.
  intros la lb. apply matching_loop_enough.
  - repeat constructor. unfold region_ordered. simpl. lia.
  - simpl region_cost. lia.
Qed.

(** ** The theorems at work

    Each theorem above that has premises is applied here to a sample world:
    the site stores [Sample.pool], whose first two names share the key
    [lizard-wizard], and the similarity comparison is [difflib]'s. *)

Lemma add_command_rejects_close_match_witness :
  site (Sample.world_with Sample.pool) (GET names_endpoint []) = Returned Sample.pool
  /\ difflib.get_close_matches (lit "lizard-wizards") Sample.pool 1 0.8
     = Returned [lit "lizard-wizard"]
  /\ (POST names_endpoint [(lit "name", PStr (lit "lizard-wizards"))]
      ∉ requests (calls (add_command (lit "!") difflib.get_close_matches
                           Sample.moderator (lit "lizard-wizards"))
                    (Sample.world_with Sample.pool)))
  /\ calls (add_command (lit "!") difflib.get_close_matches
              Sample.moderator (lit "lizard-wizards"))
       (Sample.world_with Sample.pool)
     = [ApiCall (GET names_endpoint []);
        LogRecord INFO
          (lit "mod tried to add channel name 'lizard-wizards' but it was too similar to 'lizard-wizard'");
        CtxSend
          (lit ":x: The channel name `lizard-wizards` is too similar to `lizard-wizard`, and thus was not added. Use `!otn forceadd` to override this check.")].
Proof.
  assert (difflib.get_close_matches (lit "lizard-wizards") Sample.pool 1 0.8
          = Returned [lit "lizard-wizard"]) as Hclose by (vm_compute; reflexivity).
  split; [reflexivity|]. split; [exact Hclose|].
  destruct (add_command_rejects_close_match (lit "!") difflib.get_close_matches
              Sample.moderator (lit "lizard-wizards") (Sample.world_with Sample.pool)
              Sample.pool [lit "lizard-wizard"] eq_refl Hclose) as (Hiff & Hreject & _).
  split; [apply Hiff; discriminate|].
  rewrite (calls_emit _ _ _ _ (Hreject _ _ eq_refl)). vm_compute. reflexivity.
Defined.

Lemma force_add_command_submits_witness :
  site (Sample.world_with Sample.pool)
    (POST names_endpoint [(lit "name", PStr (lit "lizard-wizards"))]) = Returned []
  /\ requests (calls (force_add_command Sample.moderator (lit "lizard-wizards"))
                 (Sample.world_with Sample.pool))
     = [POST names_endpoint [(lit "name", PStr (lit "lizard-wizards"))]].
Proof.
  split; [reflexivity|].
  exact (proj2 (force_add_command_submits Sample.moderator (lit "lizard-wizards")
                  (Sample.world_with Sample.pool) [] eq_refl)).
Defined.

Lemma search_command_results_witness :
  site (Sample.world_with Sample.pool_translated) (GET names_endpoint [])
  = Returned Sample.pool_translated
  /\ Sample.lower (Sample.translate_name Sample.query_translated false) = lit "he-void"
  /\ map (fun name => Sample.lower (Sample.translate_name name false)) Sample.pool_translated
     = [lit "the-void"; lit "the-vid"; lit "into-the-void-again"; lit "lizard-wizard"]
  /\ difflib.get_close_matches
       (Sample.lower (Sample.translate_name Sample.query_translated false))
       (first_occurrences
          (map (fun name => Sample.lower (Sample.translate_name name false))
             Sample.pool_translated)) 10 0.70
     = Returned [lit "the-void"; lit "the-vid"]
  /\ calls (search_command Sample.translate_name Sample.lower difflib.get_close_matches
              Sample.moderator Sample.query_translated)
       (Sample.world_with Sample.pool_translated)
     = [ApiCall (GET names_endpoint []);
        Paginate [bullet (lit "into-the-void-again"); bullet (lit "the-vid");
                  bullet ([120243%N] ++ lit "he-void")]
          (mkEmbed (lit "Query results") blue None) 400 false].
Proof.
  assert (difflib.get_close_matches
            (Sample.lower (Sample.translate_name Sample.query_translated false))
            (first_occurrences
               (map (fun name => Sample.lower (Sample.translate_name name false))
                  Sample.pool_translated)) 10 0.70
          = Returned [lit "the-void"; lit "the-vid"]) as Hclose by (vm_compute; reflexivity).
  split; [reflexivity|]. split; [vm_compute; reflexivity|].
  split; [vm_compute; reflexivity|]. split; [exact Hclose|].
  destruct (search_command_results Sample.translate_name Sample.lower
              difflib.get_close_matches Sample.moderator Sample.query_translated
              (Sample.world_with Sample.pool_translated) Sample.pool_translated
              [lit "the-void"; lit "the-vid"]
              eq_refl Hclose
              (difflib_get_close_matches_sound _ _ _ _ _ Hclose)) as (Hcalls & _).
  rewrite Hcalls. vm_compute. reflexivity.
Defined.

Lemma list_command_sorted_witness :
  site (Sample.world_with Sample.pool) (GET names_endpoint []) = Returned Sample.pool
  /\ shown_lines (calls (list_command Sample.moderator) (Sample.world_with Sample.pool))
     = [[bullet (lit "Lizard-Wizard"); bullet (lit "gizzard-lizard");
         bullet (lit "lizard-wizard"); bullet (lit "the-void")]].
Proof.
  split; [reflexivity|].
  destruct (list_command_sorted Sample.moderator (Sample.world_with Sample.pool)
              Sample.pool eq_refl) as (Hlines & _).
  rewrite Hlines. vm_compute. reflexivity.
Defined.

Lemma update_names_renames_in_slot_order_witness :
  exists name_0 name_1 name_2,
    site (Sample.world_with Sample.pool)
      (GET names_endpoint [(lit "random_items", PInt 3)])
    = Returned [name_0; name_1; name_2]
    /\ requests (calls (update_names Sample.ot0 Sample.ot1 Sample.ot2)
                   (Sample.world_with Sample.pool))
       = [GET names_endpoint [(lit "random_items", PInt 3)]]
    /\ edits (calls (update_names Sample.ot0 Sample.ot1 Sample.ot2)
                (Sample.world_with Sample.pool))
       = [(Sample.ot0, lit "ot0-" ++ name_0);
          (Sample.ot1, lit "ot1-" ++ name_1);
          (Sample.ot2, lit "ot2-" ++ name_2)]
    /\ channels (snd (update_names Sample.ot0 Sample.ot1 Sample.ot2
                        (Sample.world_with Sample.pool)))
       = <[Sample.ot2 := lit "ot2-" ++ name_2]>
           (<[Sample.ot1 := lit "ot1-" ++ name_1]>
              (<[Sample.ot0 := lit "ot0-" ++ name_0]>
                 (channels (Sample.world_with Sample.pool)))).
Proof.
  apply (update_names_renames_in_slot_order Sample.ot0 Sample.ot1 Sample.ot2
           (Sample.world_with Sample.pool)).
  vm_compute. reflexivity.
Defined.

Lemma update_names_fetch_error_witness :
  site Sample.world_down (GET names_endpoint [(lit "random_items", PInt 3)])
  = Raised (ResponseCodeError 503)
  /\ edits (calls (update_names Sample.ot0 Sample.ot1 Sample.ot2) Sample.world_down) = []
  /\ channels (snd (update_names Sample.ot0 Sample.ot1 Sample.ot2 Sample.world_down))
     = channels Sample.world_down.
Proof.
  split; [reflexivity|].
  destruct (update_names_fetch_error Sample.ot0 Sample.ot1 Sample.ot2
              Sample.world_down 503 eq_refl) as (_ & Hedits & Hchannels & _).
  split; [exact Hedits|exact Hchannels].
Defined.

Lemma delete_command_removes_and_confirms_witness :
  site (Sample.world_with Sample.pool)
    (DELETE (lit "bot/off-topic-channel-names/" ++ lit "never-stored")) = Returned []
  /\ requests (calls (delete_command Sample.moderator (lit "never-stored"))
                 (Sample.world_with Sample.pool))
     = [DELETE (lit "bot/off-topic-channel-names/" ++ lit "never-stored")].
Proof.
  split; [reflexivity|].
  exact (proj2 (delete_command_removes_and_confirms Sample.moderator (lit "never-stored")
                  (Sample.world_with Sample.pool) [] eq_refl)).
Defined.

Lemma update_names_needs_three_names_witness :
  site (Sample.world_with (take 2 Sample.pool))
    (GET names_endpoint [(lit "random_items", PInt 3)])
  = Returned (take 2 Sample.pool)
  /\ length (take 2 Sample.pool) <> 3
  /\ update_names Sample.ot0 Sample.ot1 Sample.ot2 (Sample.world_with (take 2 Sample.pool))
     = (Raised ValueError,
        emit [ApiCall (GET names_endpoint [(lit "random_items", PInt 3)])]
          (Sample.world_with (take 2 Sample.pool))).
Proof.
  split; [reflexivity|]. split; [discriminate|].
  destruct (update_names_needs_three_names Sample.ot0 Sample.ot1 Sample.ot2
              (Sample.world_with (take 2 Sample.pool)) (take 2 Sample.pool) eq_refl)
    as (Hraise & _).
  apply Hraise. discriminate.
Defined.

Lemma search_command_shows_last_of_key_witness :
  site (Sample.world_with Sample.pool) (GET names_endpoint []) = Returned Sample.pool
  /\ [bullet (lit "Lizard-Wizard")]
     ∈ shown_lines (calls (search_command Sample.translate_name Sample.lower
                             difflib.get_close_matches Sample.moderator
                             (lit "Lizard-Wizrd"))
                      (Sample.world_with Sample.pool))
  /\ exists i,
       Sample.pool !! i = Some (lit "Lizard-Wizard")
       /\ forall j other,
            Sample.pool !! j = Some other ->
            normalize Sample.translate_name Sample.lower other
            = normalize Sample.translate_name Sample.lower (lit "Lizard-Wizard") ->
            j <= i.
Proof.
  assert ([bullet (lit "Lizard-Wizard")]
          ∈ shown_lines (calls (search_command Sample.translate_name Sample.lower
                                  difflib.get_close_matches Sample.moderator
                                  (lit "Lizard-Wizrd"))
                           (Sample.world_with Sample.pool))) as Hshown.
  { vm_compute. left. }
  split; [reflexivity|]. split; [exact Hshown|].
  apply (search_command_shows_last_of_key Sample.translate_name Sample.lower
           difflib.get_close_matches Sample.moderator (lit "Lizard-Wizrd")
           (Sample.world_with Sample.pool) Sample.pool
           [bullet (lit "Lizard-Wizard")] (lit "Lizard-Wizard") eq_refl Hshown).
  left.
Defined.

Lemma list_command_keeps_every_name_witness :
  site (Sample.world_with (lit "the-void" :: Sample.pool)) (GET names_endpoint [])
  = Returned (lit "the-void" :: Sample.pool)
  /\ map title (shown_embeds (calls (list_command Sample.moderator)
                                (Sample.world_with (lit "the-void" :: Sample.pool))))
     = [lit "Known off-topic names (`5` total)"].
Proof.
  split; [reflexivity|].
  destruct (list_command_keeps_every_name Sample.moderator
              (Sample.world_with (lit "the-void" :: Sample.pool))
              (lit "the-void" :: Sample.pool) eq_refl) as (Htitle & _).
  rewrite Htitle. vm_compute. reflexivity.
Defined.

(** ** More theorems at work *)

Lemma update_names_succeeds_witness :
  site (Sample.world_with Sample.pool)
    (GET names_endpoint [(lit "random_items", PInt 3)])
  = Returned [lit "lizard-wizard"; lit "Lizard-Wizard"; lit "the-void"]
  /\ fst (update_names Sample.ot0 Sample.ot1 Sample.ot2 (Sample.world_with Sample.pool))
     = Returned tt.
Proof.
  split; [reflexivity|].
  rewrite (update_names_succeeds Sample.ot0 Sample.ot1 Sample.ot2
             (Sample.world_with Sample.pool)
             (lit "lizard-wizard") (lit "Lizard-Wizard") (lit "the-void")
             eq_refl
             (ex_intro _ (lit "ot0-old") eq_refl)
             (ex_intro _ (lit "ot1-old") eq_refl)
             (ex_intro _ (lit "ot2-old") eq_refl)
             eq_refl eq_refl eq_refl).
  reflexivity.
Defined.

Lemma update_names_edits_in_order_witness :
  site (Sample.world_refusing_ot1 Sample.pool)
    (GET names_endpoint [(lit "random_items", PInt 3)])
  = Returned [lit "lizard-wizard"; lit "Lizard-Wizard"; lit "the-void"]
  /\ edits (calls (update_names Sample.ot0 Sample.ot1 Sample.ot2)
              (Sample.world_refusing_ot1 Sample.pool))
     `prefix_of` [(Sample.ot0, lit "ot0-" ++ lit "lizard-wizard");
                  (Sample.ot1, lit "ot1-" ++ lit "Lizard-Wizard");
                  (Sample.ot2, lit "ot2-" ++ lit "the-void")].
Proof.
  split; [reflexivity|].
  exact (proj1 (update_names_edits_in_order Sample.ot0 Sample.ot1 Sample.ot2
                  (Sample.world_refusing_ot1 Sample.pool)
                  (lit "lizard-wizard") (lit "Lizard-Wizard") (lit "the-void") eq_refl)).
Defined.

Lemma update_names_missing_channel_witness :
  channels (Sample.world_without_ot1 Sample.pool) !! Sample.ot1 = None
  /\ update_names Sample.ot0 Sample.ot1 Sample.ot2 (Sample.world_without_ot1 Sample.pool)
     = (Raised AttributeError,
        rename_channel Sample.ot0 (lit "ot0-" ++ lit "lizard-wizard")
          (emit [ApiCall (GET names_endpoint [(lit "random_items", PInt 3)]);
                 ChannelEdit Sample.ot0 (lit "ot0-" ++ lit "lizard-wizard")]
             (Sample.world_without_ot1 Sample.pool))).
Proof.
  split; [reflexivity|].
  exact (update_names_missing_channel Sample.ot0 Sample.ot1 Sample.ot2
           (Sample.world_without_ot1 Sample.pool)
           (lit "lizard-wizard") (lit "Lizard-Wizard") (lit "the-void")
           eq_refl (ex_intro _ (lit "ot0-old") eq_refl) eq_refl eq_refl).
Defined.

Lemma update_names_other_fetch_error_witness :
  site Sample.world_unreachable (GET names_endpoint [(lit "random_items", PInt 3)])
  = Raised ClientError
  /\ update_names Sample.ot0 Sample.ot1 Sample.ot2 Sample.world_unreachable
     = (Raised ClientError,
        emit [ApiCall (GET names_endpoint [(lit "random_items", PInt 3)])]
          Sample.world_unreachable).
Proof.
  split; [reflexivity|].
  apply (update_names_other_fetch_error Sample.ot0 Sample.ot1 Sample.ot2
           Sample.world_unreachable ClientError eq_refl).
  discriminate.
Defined.

Lemma search_command_shows_iff_witness :
  original_name Sample.translate_name Sample.lower Sample.pool
    (normalize Sample.translate_name Sample.lower (lit "Lizard-Wizard"))
  = Some (lit "Lizard-Wizard")
  /\ exists lines,
       lines ∈ shown_lines (calls (search_command Sample.translate_name Sample.lower
                                     difflib.get_close_matches Sample.moderator
                                     (lit "Lizard-Wizrd"))
                              (Sample.world_with Sample.pool))
       /\ bullet (lit "Lizard-Wizard") ∈ lines.
Proof.
  assert (difflib.get_close_matches
            (normalize Sample.translate_name Sample.lower (lit "Lizard-Wizrd"))
            (normalized_keys Sample.translate_name Sample.lower Sample.pool) 10 0.70
          = Returned [lit "lizard-wizard"]) as Hclose by (vm_compute; reflexivity).
  assert (original_name Sample.translate_name Sample.lower Sample.pool
            (normalize Sample.translate_name Sample.lower (lit "Lizard-Wizard"))
          = Some (lit "Lizard-Wizard")) as Hname by (vm_compute; reflexivity).
  split; [exact Hname|].
  apply (search_command_shows_iff Sample.translate_name Sample.lower
           difflib.get_close_matches Sample.moderator (lit "Lizard-Wizrd")
           (Sample.world_with Sample.pool) Sample.pool [lit "lizard-wizard"]
           (lit "Lizard-Wizard") eq_refl Hclose
           (difflib_get_close_matches_sound _ _ _ _ _ Hclose)).
  split; [exact Hname|]. right. vm_compute. left.
Defined.

Lemma search_command_finds_stored_name_witness :
  lit "the-void" ∈ Sample.pool
  /\ exists original lines,
       original_name Sample.translate_name Sample.lower Sample.pool
         (normalize Sample.translate_name Sample.lower (lit "the-void"))
       = Some original
       /\ lines ∈ shown_lines (calls (search_command Sample.translate_name Sample.lower
                                        difflib.get_close_matches Sample.moderator
                                        (lit "the-void"))
                                 (Sample.world_with Sample.pool))
       /\ bullet original ∈ lines.
Proof.
  assert (difflib.get_close_matches
            (normalize Sample.translate_name Sample.lower (lit "the-void"))
            (normalized_keys Sample.translate_name Sample.lower Sample.pool) 10 0.70
          = Returned [lit "the-void"]) as Hclose by (vm_compute; reflexivity).
  assert (lit "the-void" ∈ Sample.pool) as Hin by (vm_compute; right; right; left).
  split; [exact Hin|].
  exact (search_command_finds_stored_name Sample.translate_name Sample.lower
           difflib.get_close_matches Sample.moderator (Sample.world_with Sample.pool)
           Sample.pool [lit "the-void"] (lit "the-void") eq_refl Hclose
           (difflib_get_close_matches_sound _ _ _ _ _ Hclose) Hin).
Defined.

Lemma search_lines_among_list_lines_witness :
  [bullet (lit "Lizard-Wizard")]
  ∈ shown_lines (calls (search_command Sample.translate_name Sample.lower
                          difflib.get_close_matches Sample.moderator
                          (lit "Lizard-Wizrd"))
                   (Sample.world_with Sample.pool))
  /\ exists listed,
       listed ∈ shown_lines (calls (list_command Sample.moderator)
                               (Sample.world_with Sample.pool))
       /\ bullet (lit "Lizard-Wizard") ∈ listed.
Proof.
  assert ([bullet (lit "Lizard-Wizard")]
          ∈ shown_lines (calls (search_command Sample.translate_name Sample.lower
                                  difflib.get_close_matches Sample.moderator
                                  (lit "Lizard-Wizrd"))
                           (Sample.world_with Sample.pool))) as Hshown.
  { vm_compute. left. }
  split; [exact Hshown|].
  apply (search_lines_among_list_lines Sample.translate_name Sample.lower
           difflib.get_close_matches Sample.moderator (lit "Lizard-Wizrd")
           (Sample.world_with Sample.pool) Sample.pool
           [bullet (lit "Lizard-Wizard")] (bullet (lit "Lizard-Wizard")) eq_refl Hshown).
  left.
Defined.

Lemma delete_command_refused_witness :
  site Sample.world_down (DELETE (lit "bot/off-topic-channel-names/" ++ lit "never-stored"))
  = Raised (ResponseCodeError 503)
  /\ delete_command Sample.moderator (lit "never-stored") Sample.world_down
     = (Raised (ResponseCodeError 503),
        emit [ApiCall (DELETE (lit "bot/off-topic-channel-names/" ++ lit "never-stored"))]
          Sample.world_down).
Proof.
  split; [reflexivity|].
  exact (delete_command_refused Sample.moderator (lit "never-stored") Sample.world_down
           (ResponseCodeError 503) eq_refl).
Defined.

Lemma force_add_command_refused_witness :
  site Sample.world_down (POST names_endpoint [(lit "name", PStr (lit "the-void"))])
  = Raised (ResponseCodeError 503)
  /\ force_add_command Sample.moderator (lit "the-void") Sample.world_down
     = (Raised (ResponseCodeError 503),
        emit [ApiCall (POST names_endpoint [(lit "name", PStr (lit "the-void"))])]
          Sample.world_down).
Proof.
  split; [reflexivity|].
  exact (force_add_command_refused Sample.moderator (lit "the-void") Sample.world_down
           (ResponseCodeError 503) eq_refl).
Defined.
